(** * The drag engine ([useDraggable]) and the slider built on it

    A shallow embedding of [src/composables/useDraggable.ts] and of the
    script block of the slider component ([Slider.vue]).

    The handlers are written once, over an interface [JSNumber] of the
    arithmetic a JavaScript [number] offers to this code.  Two instances
    are given:

    - [binary64]: IEEE 754 double precision, on the Standard Library's
      [SpecFloat]: the arithmetic in which the code computes.  The
      concrete scenarios are replayed on it bit for bit, and the
      theorems stated for every number model, or under laws that both
      instances satisfy ([JSNumberLaws], [JSNumberTruthy],
      [JSNumberClamp]), hold of it.
    - [number]: exact rationals extended with [NaN] and the two
      infinities.  Division by zero, the comparisons with [NaN] and
      [Math.max]/[Math.min]/[Math.round] follow ECMAScript; rounding to
      53 bits, overflow to infinity and the sign of zero are left out.
      It is an idealisation: a theorem stated over it says what the
      formulas compute in exact arithmetic, and where double precision
      departs from it an example on [binary64] shows by how much. *)

From Stdlib Require Import ZArith QArith Qround Qreduction Lqa Lia.
From Stdlib Require Import List Bool String.
From Stdlib Require Import SpecFloat.
Import ListNotations.

Set Implicit Arguments.

(* ================================================================= *)
(** ** The arithmetic used by the handlers *)

Class JSNumber (N : Type) : Type := {
  lit : Z -> N;                (* an integer literal: 0, 2, 100 *)
  add : N -> N -> N;
  sub : N -> N -> N;
  mul : N -> N -> N;
  div : N -> N -> N;
  gt : N -> N -> bool;         (* a > b *)
  strict_ne : N -> N -> bool;  (* a !== b; on two numbers also a != b *)
  Object_is : N -> N -> bool;  (* the change test of a Vue watcher *)
  Math_max : N -> N -> N;
  Math_min : N -> N -> N;
  Math_round : N -> N;
  truthy : N -> bool           (* ToBoolean: false on 0 and NaN *)
}.

Declare Scope js_scope.
Delimit Scope js_scope with js.
Notation "a + b" := (add a b) : js_scope.
Notation "a - b" := (sub a b) : js_scope.
Notation "a * b" := (mul a b) : js_scope.
Notation "a / b" := (div a b) : js_scope.
Notation "a >? b" := (gt a b) (at level 70, no associativity) : js_scope.

(* ----------------------------------------------------------------- *)
(** *** Exact numbers

    The numbers of exact arithmetic: no result is rounded to 53 bits and
    none overflows to an infinity.  The code does not compute in them;
    they say what its formulas mean, and a theorem over [number] is a
    theorem of exact arithmetic. *)

Inductive number : Type :=
| NaN
| PosInf
| NegInf
| Fin (q : Q).

(** [None] when one side is [NaN]: every ordered comparison is then false. *)
Definition num_compare (a b : number) : option comparison :=
  match a, b with
  | NaN, _ | _, NaN => None
  | Fin p, Fin q => Some (p ?= q)%Q
  | PosInf, PosInf | NegInf, NegInf => Some Eq
  | PosInf, _ | _, NegInf => Some Gt
  | NegInf, _ | _, PosInf => Some Lt
  end.

Definition num_sign (a : number) : comparison :=
  match a with
  | Fin q => (q ?= 0)%Q
  | PosInf => Gt
  | NegInf => Lt
  | NaN => Eq
  end.

(** The infinite result of a product or quotient, from the signs of the
    operands; a zero operand gives [NaN]. *)
Definition inf_of_signs (s t : comparison) : number :=
  match s, t with
  | Eq, _ | _, Eq => NaN
  | Gt, Gt | Lt, Lt => PosInf
  | Gt, Lt | Lt, Gt => NegInf
  end.

Definition num_add (a b : number) : number :=
  match a, b with
  | NaN, _ | _, NaN => NaN
  | Fin p, Fin q => Fin (Qred (p + q))
  | PosInf, NegInf | NegInf, PosInf => NaN
  | PosInf, _ | _, PosInf => PosInf
  | NegInf, _ | _, NegInf => NegInf
  end.

Definition num_sub (a b : number) : number :=
  match a, b with
  | NaN, _ | _, NaN => NaN
  | Fin p, Fin q => Fin (Qred (p - q))
  | PosInf, PosInf | NegInf, NegInf => NaN
  | PosInf, _ | _, NegInf => PosInf
  | NegInf, _ | _, PosInf => NegInf
  end.

Definition num_mul (a b : number) : number :=
  match a, b with
  | NaN, _ | _, NaN => NaN
  | Fin p, Fin q => Fin (Qred (p * q))
  | _, _ => inf_of_signs (num_sign a) (num_sign b)
  end.

(** A zero divisor counts as [+0]. *)
Definition num_div (a b : number) : number :=
  match a, b with
  | NaN, _ | _, NaN => NaN
  | Fin p, Fin q =>
      if Qeq_bool q 0
      then match (p ?= 0)%Q with Eq => NaN | Gt => PosInf | Lt => NegInf end
      else Fin (Qred (p / q))
  | Fin _, _ => Fin 0
  | _, Fin q => inf_of_signs (num_sign a) (if Qeq_bool q 0 then Gt else (q ?= 0)%Q)
  | _, _ => NaN
  end.

Definition num_gt (a b : number) : bool :=
  match num_compare a b with Some Gt => true | _ => false end.

Definition num_strict_ne (a b : number) : bool :=
  match num_compare a b with Some Eq => false | _ => true end.

Definition num_Object_is (a b : number) : bool :=
  match a, b with
  | NaN, NaN => true
  | _, _ => match num_compare a b with Some Eq => true | _ => false end
  end.

Definition num_max (a b : number) : number :=
  match num_compare a b with
  | None => NaN
  | Some Lt => b
  | Some _ => a
  end.

Definition num_min (a b : number) : number :=
  match num_compare a b with
  | None => NaN
  | Some Gt => b
  | Some _ => a
  end.

(** [Math.round] is [floor (x + 1/2)]: ties go up. *)
Definition num_round (a : number) : number :=
  match a with
  | Fin q => Fin (inject_Z (Qfloor (q + (1 # 2))))
  | _ => a
  end.

Definition num_truthy (a : number) : bool :=
  match a with
  | NaN => false
  | Fin q => negb (Qeq_bool q 0)
  | _ => true
  end.

(** The interface in exact arithmetic.  The instance of the code is
    [binary64_JSNumber] below. *)
#[export] Instance number_JSNumber : JSNumber number := {|
  lit := fun z => Fin (inject_Z z);
  add := num_add;
  sub := num_sub;
  mul := num_mul;
  div := num_div;
  gt := num_gt;
  strict_ne := num_strict_ne;
  Object_is := num_Object_is;
  Math_max := num_max;
  Math_min := num_min;
  Math_round := num_round;
  truthy := num_truthy
|}.

(* ----------------------------------------------------------------- *)
(** *** IEEE 754 double precision *)

Definition binary64 : Type := spec_float.

Definition b64_prec : Z := 53.
Definition b64_emax : Z := 1024.

Definition b64_of_Z (z : Z) : binary64 :=
  binary_normalize b64_prec b64_emax z 0 false.

Definition b64_gt (a b : binary64) : bool := SFltb b a.

Definition b64_strict_ne (a b : binary64) : bool := negb (SFeqb a b).

Definition b64_Object_is (a b : binary64) : bool :=
  match a, b with
  | S754_nan, S754_nan => true
  | S754_zero s, S754_zero t => Bool.eqb s t
  | _, _ => SFeqb a b
  end.

(** [Math.max] prefers [+0] to [-0], [Math.min] the other way round. *)
Definition b64_max (a b : binary64) : binary64 :=
  match SFcompare a b with
  | None => S754_nan
  | Some Lt => b
  | Some Gt => a
  | Some Eq =>
      match a, b with
      | S754_zero s, S754_zero t => S754_zero (s && t)
      | _, _ => a
      end
  end.

Definition b64_min (a b : binary64) : binary64 :=
  match SFcompare a b with
  | None => S754_nan
  | Some Gt => b
  | Some Lt => a
  | Some Eq =>
      match a, b with
      | S754_zero s, S754_zero t => S754_zero (s || t)
      | _, _ => a
      end
  end.

(** [Math.round]: [floor (x + 1/2)] taken exactly; a result of zero keeps
    the sign of the argument. *)
Definition b64_round (a : binary64) : binary64 :=
  match a with
  | S754_finite s m e =>
      if (0 <=? e)%Z then a
      else
        let d := (2 ^ (- e))%Z in
        let n := ((cond_Zopp s (2 * Zpos m) + d) / (2 * d))%Z in
        binary_normalize b64_prec b64_emax n 0 s
  | _ => a
  end.

Definition b64_truthy (a : binary64) : bool :=
  match a with
  | S754_nan | S754_zero _ => false
  | _ => true
  end.

#[export] Instance binary64_JSNumber : JSNumber binary64 := {|
  lit := b64_of_Z;
  add := SFadd b64_prec b64_emax;
  sub := SFsub b64_prec b64_emax;
  mul := SFmul b64_prec b64_emax;
  div := SFdiv b64_prec b64_emax;
  gt := b64_gt;
  strict_ne := b64_strict_ne;
  Object_is := b64_Object_is;
  Math_max := b64_max;
  Math_min := b64_min;
  Math_round := b64_round;
  truthy := b64_truthy
|}.

(** A decimal literal [m / 10^k], rounded to the nearest double. *)
Definition b64_decimal (m : Z) (k : positive) : binary64 :=
  SFdiv b64_prec b64_emax (b64_of_Z m) (b64_of_Z (Zpos (10 ^ k))).

(* ================================================================= *)
(** ** The part of the DOM the handlers read *)

Module Position.
Record t (N : Type) : Type := mk { x : N; y : N }.
End Position.

Module DOMRect.
Record t (N : Type) : Type := mk { left : N; top : N; width : N; height : N }.
End DOMRect.

(** An element as a handler sees it at one instant: its identity, the
    selectors it matches ([Element.matches]), its bounding rectangle and
    its parent. *)
#[warnings="-register-all"]
Inductive Element (N : Type) : Type :=
| mkElement (node : nat) (matches : string -> bool)
    (boundingClientRect : DOMRect.t N) (parentElement : option (Element N)).

Arguments mkElement {N}.

Definition node {N} (e : Element N) : nat :=
  match e with mkElement n _ _ _ => n end.

Definition matches {N} (e : Element N) : string -> bool :=
  match e with mkElement _ m _ _ => m end.

Definition getBoundingClientRect {N} (e : Element N) : DOMRect.t N :=
  match e with mkElement _ _ r _ => r end.

Definition parentElement {N} (e : Element N) : option (Element N) :=
  match e with mkElement _ _ _ p => p end.

(** [e.closest(sel)]: the nearest of [e] and its ancestors matching [sel]. *)
Fixpoint closest {N} (sel : string) (e : Element N) : option (Element N) :=
  match e with
  | mkElement _ m _ p =>
      if m sel then Some e
      else match p with
           | Some e' => closest sel e'
           | None => None
           end
  end.

(** [a.contains(e)]: [e] is [a] or one of its descendants. *)
Fixpoint contains {N} (a : Element N) (e : Element N) : bool :=
  match e with
  | mkElement n _ _ p =>
      Nat.eqb (node a) n
      || match p with
         | Some e' => contains a e'
         | None => false
         end
  end.

(** A touch point or a mouse event: both carry client coordinates. *)
Record Pointer (N : Type) : Type := { clientX : N; clientY : N }.

Inductive DomEvent (N : Type) : Type :=
| MouseEvent (target : Element N) (at_ : Pointer N)
| TouchEvent (target : Element N) (touches : list (Pointer N)).

Arguments MouseEvent {N}.
Arguments TouchEvent {N}.

Definition target {N} (ev : DomEvent N) : Element N :=
  match ev with MouseEvent t _ | TouchEvent t _ => t end.

(** ["touches" in _event] *)
Definition has_touches {N} (ev : DomEvent N) : bool :=
  match ev with MouseEvent _ _ => false | TouchEvent _ _ => true end.

(** ["touches" in _event ? _event.touches[0] : _event]; [None] is
    [undefined]. *)
Definition pointer_of {N} (ev : DomEvent N) : option (Pointer N) :=
  match ev with
  | MouseEvent _ p => Some p
  | TouchEvent _ ts => hd_error ts
  end.

(* ================================================================= *)
(** ** useDraggable *)

(** The [ignore] option: a CSS selector, or a ref with its current value. *)
Inductive Ignore (N : Type) : Type :=
| IgnoreSelector (sel : string)
| IgnoreRef (value : option (Element N)).

Arguments IgnoreSelector {N}.
Arguments IgnoreRef {N}.

Record Params (N : Type) : Type := {
  initialPos : option (Position.t N);
  centered : bool;
  useOffset : bool;
  ignore : option (Ignore N)
}.

(** The four listeners [onMouseDown] puts on [document] and [onMouseUp]
    takes off; adding a listener that is already there changes nothing. *)
Record Listeners : Type := {
  mousemove : bool;
  mouseup : bool;
  touchend : bool;
  touchmove : bool
}.

Definition no_listeners : Listeners :=
  {| mousemove := false; mouseup := false; touchend := false; touchmove := false |}.

Definition all_listeners : Listeners :=
  {| mousemove := true; mouseup := true; touchend := true; touchmove := true |}.

(** What a handler does to the outside, oldest first. *)
Inductive Effect (N : Type) : Type :=
| PreventDefault
| DispatchUpdate      (* "usedraggable-update" sent to the observers *)
| Emit (value : N).   (* emit("update:modelValue", value) *)

Arguments PreventDefault {N}.
Arguments DispatchUpdate {N}.
Arguments Emit {N}.

(** The closure of one [useDraggable] call. *)
Record DragState (N : Type) : Type := {
  position : Position.t N;
  isDragging : bool;
  parentRect : option (DOMRect.t N);
  elementRect : option (DOMRect.t N);
  relativeClickOffset : Position.t N;
  listeners : Listeners;
  effects : list (Effect N)
}.

Section UseDraggable.

Context {N : Type} `{JSNumber N}.
Variable params : Params N.

Local Open Scope js_scope.

Definition set_position (p : Position.t N) (st : DragState N) : DragState N :=
  {| position := p;
     isDragging := isDragging st;
     parentRect := parentRect st;
     elementRect := elementRect st;
     relativeClickOffset := relativeClickOffset st;
     listeners := listeners st;
     effects := effects st |}.

Definition log (e : Effect N) (st : DragState N) : DragState N :=
  {| position := position st;
     isDragging := isDragging st;
     parentRect := parentRect st;
     elementRect := elementRect st;
     relativeClickOffset := relativeClickOffset st;
     listeners := listeners st;
     effects := effects st ++ [e] |}.

(** The state a call of [useDraggable] starts from (lines 60-65). *)
Definition useDraggable : DragState N :=
  {| position :=
       match initialPos params with
       | Some p => p
       | None => Position.mk (lit 0) (lit 0)
       end;
     isDragging := false;
     parentRect := None;
     elementRect := None;
     relativeClickOffset := Position.mk (lit 0) (lit 0);
     listeners := no_listeners;
     effects := [] |}.

(** Lines 92-122 of [onMouseMove]: the position, in percent, for a pointer
    at [event] in a drag that captured [parentRect], [elementRect] and
    [relativeClickOffset]. *)
Definition percentOf (parentRect elementRect : DOMRect.t N)
    (relativeClickOffset : Position.t N) (event : Pointer N) : Position.t N :=
  let offsetX := Position.x relativeClickOffset in
  let offsetY := Position.y relativeClickOffset in
  let newX := clientX event - DOMRect.left parentRect - offsetX in
  let newY := clientY event - DOMRect.top parentRect - offsetY in
  let offsetWidth := DOMRect.width parentRect - DOMRect.width elementRect in
  let maxX :=
    DOMRect.width parentRect -
    (if centered params then DOMRect.width elementRect / lit 2
     else DOMRect.width elementRect) in
  let maxY :=
    DOMRect.height parentRect -
    (if centered params then DOMRect.height elementRect / lit 2
     else DOMRect.height elementRect) in
  let minX := if centered params then DOMRect.width elementRect / lit 2 else lit 0 in
  let minY := if centered params then DOMRect.height elementRect / lit 2 else lit 0 in
  let newX := Math_max minX (Math_min maxX newX) in
  let newY := Math_max minY (Math_min maxY newY) in
  let percentX :=
    if useOffset params
    then if offsetWidth >? lit 0
         then (newX / offsetWidth) * lit 100
         else lit 0
    else (newX / DOMRect.width parentRect) * lit 100 in
  let percentY := (newY / DOMRect.height parentRect) * lit 100 in
  Position.mk percentX percentY.

Definition onMouseMove (st : DragState N) (_event : DomEvent N) : DragState N :=
  match isDragging st, parentRect st, elementRect st with
  | true, Some parentRect, Some elementRect =>
      match pointer_of _event with
      | None => st
      | Some event =>
          log DispatchUpdate
            (set_position
               (percentOf parentRect elementRect (relativeClickOffset st) event)
               st)
      end
  | _, _, _ => st
  end.

Definition onMouseUp (st : DragState N) : DragState N :=
  {| position := position st;
     isDragging := false;
     parentRect := parentRect st;
     elementRect := elementRect st;
     relativeClickOffset := relativeClickOffset st;
     listeners := no_listeners;
     effects := effects st |}.

(** Lines 145-152: does the [ignore] option stop this press?  An empty
    selector is falsy and switches the test off. *)
Definition ignored (_event : DomEvent N) : bool :=
  match ignore params with
  | None => false
  | Some (IgnoreSelector sel) =>
      match sel with
      | EmptyString => false
      | _ => match closest sel (target _event) with
             | Some _ => true
             | None => false
             end
      end
  | Some (IgnoreRef value) =>
      match value with
      | Some el => contains el (target _event)
      | None => false
      end
  end.

Definition onMouseDown (st : DragState N) (_event : DomEvent N)
    (element : option (Element N)) : DragState N :=
  match element with
  | None => st
  | Some element =>
      match parentElement element with
      | None => st
      | Some parent =>
          if ignored _event then st
          else
            let st := if has_touches _event then log PreventDefault st else st in
            match pointer_of _event with
            | None => st
            | Some event =>
                let elementRect := getBoundingClientRect element in
                let parentRect := getBoundingClientRect parent in
                {| position := position st;
                   isDragging := true;
                   parentRect := Some parentRect;
                   elementRect := Some elementRect;
                   relativeClickOffset :=
                     Position.mk
                       (clientX event - DOMRect.left elementRect -
                        (if centered params
                         then DOMRect.width elementRect / lit 2 else lit 0))
                       (clientY event - DOMRect.top elementRect -
                        (if centered params
                         then DOMRect.height elementRect / lit 2 else lit 0));
                   listeners := all_listeners;
                   effects := effects st |}
            end
      end
  end.

End UseDraggable.

(* ================================================================= *)
(** ** The slider *)

Module SliderProps.
Record t (N : Type) : Type := mk {
  modelValue : N;
  min : N;
  max : N;
  step : N;
  disabled : bool
}.
End SliderProps.

(** What happens to the slider: a handler of the component or of its drag
    engine is called by the browser. *)
Inductive SliderEvent (N : Type) : Type :=
| ThumbPress (_event : DomEvent N) (thumbRef : option (Element N))
    (* mousedown or touchstart on the thumb, the engine's event target *)
| DocumentMove (_event : DomEvent N)
    (* mousemove or touchmove on [document] *)
| DocumentRelease (touch : bool)
    (* mouseup, or touchend when [touch] *)
| TrackPress (_event : DomEvent N) (trackRef thumbRef : option (Element N))
    (thumbRef' : option (Element N)).
    (* mousedown or touchstart on the track; [thumbRef'] is the thumb as
       it is once [nextTick] has resolved *)

Arguments ThumbPress {N}.
Arguments DocumentMove {N}.
Arguments DocumentRelease {N}.
Arguments TrackPress {N}.

(** An event of a run, with the props the parent has set before it and
    by the time the watcher's job follows it. *)
Record Turn (N : Type) : Type := {
  before : SliderProps.t N;
  event : SliderEvent N;
  after : SliderProps.t N
}.

Section Slider.

Context {N : Type} `{JSNumber N}.

Local Open Scope js_scope.

(** Lines 27-30: the engine around the thumb. *)
Definition sliderParams : Params N :=
  {| initialPos := None; centered := false; useOffset := true; ignore := None |}.

(** With the defaults of [withDefaults] (lines 13-18). *)
Definition defaultProps : SliderProps.t N :=
  SliderProps.mk (lit 0) (lit 0) (lit 100) (lit 1) false.

Section WithProps.

Variable props : SliderProps.t N.

Definition valueAsPercentage : N :=
  let range := SliderProps.max props - SliderProps.min props in
  let normalizedValue := SliderProps.modelValue props - SliderProps.min props in
  (normalizedValue / range) * lit 100.

(** Lines 42-47: the value a percentage of the engine stands for. *)
Definition valueOfPercentage (newPercentageX : N) : N :=
  let range := SliderProps.max props - SliderProps.min props in
  let newValue := (newPercentageX / lit 100) * range + SliderProps.min props in
  let newValue :=
    if SliderProps.step props >? lit 0
    then Math_round (newValue / SliderProps.step props) * SliderProps.step props
    else newValue in
  Math_max (SliderProps.min props) (Math_min (SliderProps.max props) newValue).

(** The callback of [watch(() => position.value.x, ...)], lines 40-51:
    [Some v] when it emits [v]. *)
Definition watch_position_x (newPercentageX : N) : option N :=
  if SliderProps.disabled props then None
  else
    let newValue := valueOfPercentage newPercentageX in
    if strict_ne newValue (SliderProps.modelValue props)
    then Some newValue
    else None.

(** The watcher's job: it runs the callback when the watched value is no
    longer the one it saw last. *)
Definition flush_watch (oldX : N) (st : DragState N) : DragState N :=
  let newX := Position.x (position st) in
  if Object_is newX oldX then st
  else match watch_position_x newX with
       | Some v => log (Emit v) st
       | None => st
       end.

(** Lines 66-72 of [handleTrackClick]. *)
Definition clickPercentage (trackRect thumbRect : DOMRect.t N)
    (event : Pointer N) : N :=
  let clickX := clientX event - DOMRect.left trackRect in
  let effectiveWidth := DOMRect.width trackRect - DOMRect.width thumbRect in
  let targetX := clickX - DOMRect.width thumbRect / lit 2 in
  let clampedX := Math_max (lit 0) (Math_min targetX effectiveWidth) in
  if effectiveWidth >? lit 0
  then (clampedX / effectiveWidth) * lit 100
  else lit 0.

(** Lines 74-79 of [handleTrackClick]. *)
Definition clickValue (percentage : N) : N :=
  let range := SliderProps.max props - SliderProps.min props in
  let newValue := (percentage / lit 100) * range + SliderProps.min props in
  let newValue :=
    if truthy (SliderProps.step props) && (SliderProps.step props >? lit 0)
    then Math_round (newValue / SliderProps.step props) * SliderProps.step props
    else newValue in
  Math_max (SliderProps.min props) (Math_min (SliderProps.max props) newValue).

(** [handleTrackClick] up to its [await]; the flag tells whether the
    [await] was reached, that is, whether [onMouseDown] is called once the
    tick is over. *)
Definition handleTrackClick_sync (st : DragState N) (_event : DomEvent N)
    (trackRef thumbRef : option (Element N)) : DragState N * bool :=
  if SliderProps.disabled props then (st, false)
  else
    match trackRef, thumbRef with
    | Some track, Some thumb =>
        match pointer_of _event with
        | None => (st, false)
        | Some event =>
            let trackRect := getBoundingClientRect track in
            let thumbRect := getBoundingClientRect thumb in
            let percentage := clickPercentage trackRect thumbRect event in
            let st := set_position (Position.mk percentage (lit 0)) st in
            let newValue := clickValue percentage in
            let st :=
              if strict_ne newValue (SliderProps.modelValue props)
              then log (Emit newValue) st
              else st in
            (st, true)
        end
    | _, _ => (st, false)
    end.

(** [document] calls a handler only while it is registered. *)
Definition dispatchMove (st : DragState N) (_event : DomEvent N) : DragState N :=
  if (if has_touches _event then touchmove (listeners st)
      else mousemove (listeners st))
  then onMouseMove sliderParams st _event
  else st.

Definition dispatchRelease (st : DragState N) (touch : bool) : DragState N :=
  if (if touch then touchend (listeners st) else mouseup (listeners st))
  then onMouseUp st
  else st.

End WithProps.

(** The whole of [handleTrackClick]: the part before the [await], the
    watcher's job, which runs before [nextTick] resolves and sees the
    props [props'] the parent has set by then, and the call of
    [onMouseDown] on the thumb. *)
Definition handleTrackClick (props props' : SliderProps.t N)
    (st : DragState N) (_event : DomEvent N)
    (trackRef thumbRef thumbRef' : option (Element N)) : DragState N :=
  let oldX := Position.x (position st) in
  let (st1, awaiting) := handleTrackClick_sync props st _event trackRef thumbRef in
  let st2 := flush_watch props' oldX st1 in
  if awaiting then onMouseDown sliderParams st2 _event thumbRef' else st2.

(** One event, handled under [props] and followed by the watcher's job
    under [props']. *)
Definition step (props props' : SliderProps.t N) (st : DragState N)
    (ev : SliderEvent N) : DragState N :=
  let oldX := Position.x (position st) in
  match ev with
  | ThumbPress _event thumbRef =>
      flush_watch props' oldX (onMouseDown sliderParams st _event thumbRef)
  | DocumentMove _event => flush_watch props' oldX (dispatchMove st _event)
  | DocumentRelease touch => flush_watch props' oldX (dispatchRelease st touch)
  | TrackPress _event trackRef thumbRef thumbRef' =>
      handleTrackClick props props' st _event trackRef thumbRef thumbRef'
  end.

(** A run of the component: each event comes with the props in force
    when it is handled and when the watcher's job follows. *)
Fixpoint run (st : DragState N) (turns : list (Turn N)) : DragState N :=
  match turns with
  | [] => st
  | t :: turns' => run (step (before t) (after t) st (event t)) turns'
  end.

(** The values emitted so far, oldest first. *)
Fixpoint emitted (l : list (Effect N)) : list N :=
  match l with
  | [] => []
  | Emit v :: l' => v :: emitted l'
  | _ :: l' => emitted l'
  end.

End Slider.

(* ================================================================= *)
(** ** A concrete page

    A track of 200 by 24 pixels at the origin of the viewport and a thumb
    of 20 by 20 pixels inside it, as the slider lays them out. *)

Section Page.

Context {N : Type} `{JSNumber N}.

Definition rect (l t w h : Z) : DOMRect.t N :=
  DOMRect.mk (lit l) (lit t) (lit w) (lit h).

Definition has_class (c : string) : string -> bool :=
  fun sel => String.eqb sel c.

Definition trackEl : Element N :=
  mkElement 1 (has_class ".slider") (rect 0 0 200 24) None.

Definition thumbEl : Element N :=
  mkElement 2 (has_class ".slider__thumb") (rect 0 2 20 20) (Some trackEl).

Definition mouse (t : Element N) (cx cy : Z) : DomEvent N :=
  MouseEvent t {| clientX := lit cx; clientY := lit cy |}.

Definition touch (t : Element N) (cx cy : Z) : DomEvent N :=
  TouchEvent t [{| clientX := lit cx; clientY := lit cy |}].

Definition props_of (modelValue min max step : Z) (disabled : bool)
    : SliderProps.t N :=
  SliderProps.mk (lit modelValue) (lit min) (lit max) (lit step) disabled.

End Page.

(** Both options on: the clamp keeps the centre of the thumb between
    [10] and [190] pixels, the percentage is taken of [180]. *)
Definition centeredOffsetParams {N : Type} : Params N :=
  {| initialPos := None; centered := true; useOffset := true; ignore := None |}.

(** The defaults of [useDraggable], and [centered] alone. *)
Definition plainParams {N : Type} : Params N :=
  {| initialPos := None; centered := false; useOffset := false; ignore := None |}.

Definition centeredParams {N : Type} : Params N :=
  {| initialPos := None; centered := true; useOffset := false; ignore := None |}.

(** An element that is not displayed, in a parent that is not either: all
    their measures are zero. *)
Definition hiddenEl {N : Type} `{JSNumber N} : Element N :=
  mkElement 7 (has_class ".hidden") (rect 0 0 0 0)
    (Some (mkElement 6 (has_class ".hidden") (rect 0 0 0 0) None)).

(** An element three times as wide as the track it is in. *)
Definition hugeEl {N : Type} `{JSNumber N} : Element N :=
  mkElement 8 (has_class ".huge") (rect 0 2 600 20) (Some trackEl).

(** A thumb as wide as its track. *)
Definition wideThumbEl {N : Type} `{JSNumber N} : Element N :=
  mkElement 2 (has_class ".slider__thumb") (rect 0 2 200 20) (Some trackEl).

(** A panel with a close button, dragged inside the track's element. *)
Definition panelEl {N : Type} `{JSNumber N} : Element N :=
  mkElement 3 (has_class ".panel") (rect 40 2 80 20) (Some trackEl).

Definition closeEl {N : Type} `{JSNumber N} : Element N :=
  mkElement 4 (has_class ".close-button") (rect 100 4 16 16) (Some panelEl).

Definition iconEl {N : Type} `{JSNumber N} : Element N :=
  mkElement 5 (has_class ".icon") (rect 102 6 12 12) (Some closeEl).

Definition panelParams {N : Type} : Params N :=
  {| initialPos := None; centered := true; useOffset := false;
     ignore := Some (IgnoreSelector ".close-button") |}.

(** A drag of the thumb of the page from its left end to the middle of the
    track, under props that the parent leaves alone. *)
Definition dragToMiddle {N : Type} `{JSNumber N} (props : SliderProps.t N)
    : list (Turn N) :=
  [ {| before := props;
       event := ThumbPress (mouse thumbEl 10 12) (Some thumbEl);
       after := props |};
    {| before := props;
       event := DocumentMove (mouse thumbEl 100 12);
       after := props |} ].

(* ================================================================= *)
(** ** Vocabulary of the statements *)

(** [n] is a finite number between [lo] and [hi]. *)
Definition within (lo hi : Q) (n : number) : Prop :=
  match n with
  | Fin q => lo <= q <= hi
  | _ => False
  end.

Definition finite (n : number) : Prop :=
  match n with Fin _ => True | _ => False end.

Definition nonneg (n : number) : Prop :=
  match n with Fin q => 0 <= q | _ => False end.

Definition positive (n : number) : Prop :=
  match n with Fin q => 0 < q | _ => False end.

(** [a <= 2 * b], both finite. *)
Definition at_most_twice (a b : number) : Prop :=
  match a, b with
  | Fin p, Fin q => p <= 2 * q
  | _, _ => False
  end.

(** A rectangle as [getBoundingClientRect] returns it: finite, with sizes
    that are not negative. *)
Definition measured (r : DOMRect.t number) : Prop :=
  finite (DOMRect.left r) /\ finite (DOMRect.top r) /\
  nonneg (DOMRect.width r) /\ nonneg (DOMRect.height r).

Definition finite_pointer (p : Pointer number) : Prop :=
  finite (clientX p) /\ finite (clientY p).

Definition finite_position (p : Position.t number) : Prop :=
  finite (Position.x p) /\ finite (Position.y p).

(** [e] matches the selector [sel] or lies inside an element that does. *)
Inductive inside_selector {N : Type} (sel : string) : Element N -> Prop :=
| inside_selector_self (e : Element N) :
    matches e sel = true -> inside_selector sel e
| inside_selector_parent (e parent : Element N) :
    parentElement e = Some parent -> inside_selector sel parent ->
    inside_selector sel e.

(** [e] is the element [a] or lies inside it. *)
Inductive inside_element {N : Type} (a : Element N) : Element N -> Prop :=
| inside_element_self (e : Element N) :
    node e = node a -> inside_element a e
| inside_element_parent (e parent : Element N) :
    parentElement e = Some parent -> inside_element a parent ->
    inside_element a e.

(** [v] is [k * step] for an integer [k]. *)
Definition multiple_of (step v : Q) : Prop :=
  exists k : Z, v == inject_Z k * step.

(** What the statements below need of the numbers: a watcher sees no
    change between a value and itself. *)
Class JSNumberLaws (N : Type) {JS : JSNumber N} : Prop := {
  Object_is_refl : forall a : N, Object_is a a = true
}.

Arguments JSNumberLaws N {JS}.

(** While a drag is on, the two rectangles are captured and the listeners
    are on [document]. *)
Definition session_captured {N : Type} (st : DragState N) : Prop :=
  isDragging st = true ->
  (exists pr er, parentRect st = Some pr /\ elementRect st = Some er) /\
  listeners st = all_listeners.

(** The props have the finite range and step [min], [max], [step]. *)
Definition has_range (min max step : Q) (props : SliderProps.t number) : Prop :=
  SliderProps.min props = Fin min /\
  SliderProps.max props = Fin max /\
  SliderProps.step props = Fin step.

(** What C2 asks of an emitted value. *)
Definition on_grid_from_min (min max step : Q) (n : number) : Prop :=
  match n with
  | Fin v => min <= v <= max /\ (0 < step -> multiple_of step (v - min))
  | _ => False
  end.

(** What the code gives: the value is in the range, and with a positive
    step it is a multiple of the step, counted from zero, unless the clamp
    has replaced it by a bound. *)
Definition in_range_on_grid (min max step : Q) (n : number) : Prop :=
  match n with
  | Fin v =>
      min <= v <= max /\
      (0 < step -> multiple_of step v \/ v == min \/ v == max)
  | _ => False
  end.

(** An element ref as the browser hands it over: measured, and so is its
    parent. *)
Definition measured_ref (r : option (Element number)) : Prop :=
  forall e, r = Some e ->
    measured (getBoundingClientRect e) /\
    forall parent, parentElement e = Some parent ->
      measured (getBoundingClientRect parent).

Definition finite_event (e : DomEvent number) : Prop :=
  forall p, pointer_of e = Some p -> finite_pointer p.

Definition browser_event (ev : SliderEvent number) : Prop :=
  match ev with
  | ThumbPress e thumbRef => finite_event e /\ measured_ref thumbRef
  | DocumentMove e => finite_event e
  | DocumentRelease _ => True
  | TrackPress e trackRef thumbRef thumbRef' =>
      finite_event e /\ measured_ref trackRef /\ measured_ref thumbRef /\
      measured_ref thumbRef'
  end.

(** A turn of a slider whose range and step stay [min], [max], [step]. *)
Definition browser_turn (min max step : Q) (t : Turn number) : Prop :=
  has_range min max step (before t) /\
  has_range min max step (after t) /\
  browser_event (event t).

(** What every run keeps true of the slider's engine and of the values
    emitted so far. *)
Definition slider_inv (min max step : Q) (st : DragState number) : Prop :=
  within 0 100 (Position.x (position st)) /\
  (forall pr, parentRect st = Some pr -> measured pr) /\
  (forall er, elementRect st = Some er -> measured er) /\
  finite_position (relativeClickOffset st) /\
  Forall (in_range_on_grid min max step) (emitted (effects st)).

(* ================================================================= *)
(** ** The engine on its own, and what surrounds the two files *)

(** What happens to an engine: its press handler is called, or
    [document] receives a move or a release. *)
Inductive EngineEvent (N : Type) : Type :=
| Press (_event : DomEvent N) (element : option (Element N))
| Move (_event : DomEvent N)
| Release (touch : bool).

Arguments Press {N}.
Arguments Move {N}.
Arguments Release {N}.

Section Engine.

Context {N : Type} `{JSNumber N}.
Variable params : Params N.

(** [document] calls [onMouseMove] only while it is registered. *)
Definition documentMove (st : DragState N) (_event : DomEvent N) : DragState N :=
  if (if has_touches _event then touchmove (listeners st)
      else mousemove (listeners st))
  then onMouseMove params st _event
  else st.

Definition engine_step (st : DragState N) (e : EngineEvent N) : DragState N :=
  match e with
  | Press _event element => onMouseDown params st _event element
  | Move _event => documentMove st _event
  | Release touch => dispatchRelease st touch
  end.

Definition engine_run (st : DragState N) (evs : list (EngineEvent N))
    : DragState N :=
  fold_left engine_step evs st.

(** Lines 67-83: the watcher of [eventTarget].  Its callback puts a fresh
    pair of listeners (mousedown, touchstart) on the element the ref
    holds, if any; nothing ever takes a pair off.  The state is the list
    of the nodes that carry a pair, one entry per pair. *)
Definition bindListeners (bound : list nat) (eventTarget : option (Element N))
    : list nat :=
  match eventTarget with
  | None => bound
  | Some eventListenerTarget => bound ++ [node eventListenerTarget]
  end.

(** The watcher calls back when the ref holds another value than before:
    another element, or an element instead of nothing. *)
Definition same_ref (a b : option (Element N)) : bool :=
  match a, b with
  | None, None => true
  | Some a, Some b => Nat.eqb (node a) (node b)
  | _, _ => false
  end.

Fixpoint rebind (bound : list nat) (current : option (Element N))
    (changes : list (option (Element N))) : list nat :=
  match changes with
  | [] => bound
  | v :: changes' =>
      if same_ref current v then rebind bound current changes'
      else rebind (bindListeners bound v) v changes'
  end.

(** The callback runs once at set-up ([immediate]), with the value the
    ref holds then, and after each change. *)
Definition eventTargetListeners (initial : option (Element N))
    (changes : list (option (Element N))) : list nat :=
  rebind (bindListeners [] initial) initial changes.

(** A press on the element [el]: each pair it carries calls
    [onMouseDown (e, target.value)]. *)
Definition pressOn (bound : list nat) (el : Element N) (st : DragState N)
    (_event : DomEvent N) (targetValue : option (Element N)) : DragState N :=
  Nat.iter (count_occ Nat.eq_dec bound (node el))
    (fun st => onMouseDown params st _event targetValue) st.

End Engine.



(** [a > 0] makes [a] truthy: the two tests of the step agree. *)
Class JSNumberTruthy (N : Type) {JS : JSNumber N} : Prop := {
  gt_zero_truthy : forall a : N, gt a (lit 0) = true -> truthy a = true
}.

Arguments JSNumberTruthy N {JS}.


(** The origin of the press is not in the region [ignore] names: no
    [ignore] at all, an empty selector, a ref that holds nothing, or a
    selector or element the origin is not inside of. *)
Definition outside_ignored {N : Type} (params : Params N) (_event : DomEvent N)
    : Prop :=
  match ignore params with
  | None => True
  | Some (IgnoreSelector sel) =>
      sel = EmptyString \/ ~ inside_selector sel (target _event)
  | Some (IgnoreRef None) => True
  | Some (IgnoreRef (Some a)) => ~ inside_element a (target _event)
  end.

(** The parent adopts a value, as [v-model] does. *)
Definition with_modelValue {N : Type} (v : N) (props : SliderProps.t N)
    : SliderProps.t N :=
  SliderProps.mk v (SliderProps.min props) (SliderProps.max props)
    (SliderProps.step props) (SliderProps.disabled props).


(* ================================================================= *)
(** ** Judgements that hold in every number model *)

Section Judgements.

Context {N : Type} `{JSNumber N}.

Local Open Scope js_scope.

(** [a !== a]: true of [NaN] alone. *)
Definition is_NaN (a : N) : bool := strict_ne a a.

(** [a <= b]: both are numbers and [a > b] is false. *)
Definition leq (a b : N) : bool :=
  negb (is_NaN a) && negb (is_NaN b) && negb (a >? b).

(** The props have the range and step [min], [max], [step]. *)
Definition range_is (min max step : N) (props : SliderProps.t N) : Prop :=
  SliderProps.min props = min /\
  SliderProps.max props = max /\
  SliderProps.step props = step.

(** What the clamp at the end of both value formulas leaves of a value:
    [NaN], or a number of the range that, under a positive step, is a
    bound or [Math.round (y) * step] for some [y]. *)
Definition clamped_on_grid (min max step : N) (v : N) : Prop :=
  is_NaN v = true \/
  (leq min v = true /\ leq v max = true /\
   ((step >? lit 0) = true ->
    v = min \/ v = max \/ exists y, v = Math_round y * step)).

End Judgements.

(** What [Math.max (lo, Math.min (hi, x))] returns, in any number model:
    [NaN] or one of its three arguments, and between [lo] and [hi] when
    [lo <= hi]. *)
Class JSNumberClamp (N : Type) {JS : JSNumber N} : Prop := {
  clamp_cases : forall lo hi x : N,
    let c := Math_max lo (Math_min hi x) in
    is_NaN c = true \/ c = lo \/ c = hi \/ c = x;
  clamp_in_range : forall lo hi x : N,
    leq lo hi = true ->
    let c := Math_max lo (Math_min hi x) in
    is_NaN c = true \/ (leq lo c = true /\ leq c hi = true)
}.

Arguments JSNumberClamp N {JS}.

(** Two doubles that compare alike with every double: a double and
    itself, and the two zeros. *)
Definition sf_same (a b : binary64) : Prop :=
  forall y, SFcompare a y = SFcompare b y /\ SFcompare y a = SFcompare y b.

(** The whole numbers from [lo] to [hi]. *)
Definition zrange (lo hi : Z) : list Z :=
  map (fun n => (lo + Z.of_nat n)%Z) (seq 0 (Z.to_nat (hi - lo + 1))).

(** The round trip of a model value in double precision: the value
    derived from the percentage at which [modelValue] is rendered is
    [modelValue] again, as [!==] sees it. *)
Definition round_trips (props : SliderProps.t binary64) : bool :=
  negb (strict_ne (valueOfPercentage props (valueAsPercentage props))
          (SliderProps.modelValue props)).

(* ================================================================= *)
(** ** Arithmetic of the exact numbers *)

Lemma num_compare_Fin_Lt (p q : Q) :
  num_compare (Fin p) (Fin q) = Some Lt <-> p < q.
Proof.
  unfold num_compare. rewrite Qlt_alt. split; [intros [= E]; exact E | intros E; f_equal; exact E].
Qed.

Lemma num_compare_Fin_Gt (p q : Q) :
  num_compare (Fin p) (Fin q) = Some Gt <-> q < p.
Proof.
  unfold num_compare. rewrite Qgt_alt. split; [intros [= E]; exact E | intros E; f_equal; exact E].
Qed.

Lemma num_compare_Fin_Eq (p q : Q) :
  num_compare (Fin p) (Fin q) = Some Eq <-> p == q.
Proof.
  unfold num_compare. rewrite Qeq_alt. split; [intros [= E]; exact E | intros E; f_equal; exact E].
Qed.

Lemma num_gt_Fin (p q : Q) : num_gt (Fin p) (Fin q) = true <-> q < p.
Proof.
  unfold num_gt. rewrite <- num_compare_Fin_Gt.
  destruct (num_compare (Fin p) (Fin q)) as [[]|]; split; congruence.
Qed.

Lemma num_gt_Fin_false (p q : Q) : num_gt (Fin p) (Fin q) = false <-> p <= q.
Proof.
  rewrite <- Bool.not_true_iff_false, num_gt_Fin. split.
  - apply Qnot_lt_le.
  - apply Qle_not_lt.
Qed.

(** [Math.min] of two finite numbers is one of them, below both. *)
Lemma num_min_Fin (p q : Q) :
  exists c, num_min (Fin p) (Fin q) = Fin c /\
            (c = p \/ c = q) /\ c <= p /\ c <= q.
Proof.
  unfold num_min.
  destruct (num_compare (Fin p) (Fin q)) as [[]|] eqn:E.
  - apply num_compare_Fin_Eq in E. exists p. repeat split; auto; lra.
  - apply num_compare_Fin_Lt in E. exists p. repeat split; auto; lra.
  - apply num_compare_Fin_Gt in E. exists q. repeat split; auto; lra.
  - discriminate E.
Qed.

(** [Math.max] of two finite numbers is one of them, above both. *)
Lemma num_max_Fin (p q : Q) :
  exists c, num_max (Fin p) (Fin q) = Fin c /\
            (c = p \/ c = q) /\ p <= c /\ q <= c.
Proof.
  unfold num_max.
  destruct (num_compare (Fin p) (Fin q)) as [[]|] eqn:E.
  - apply num_compare_Fin_Eq in E. exists p. repeat split; auto; lra.
  - apply num_compare_Fin_Lt in E. exists q. repeat split; auto; lra.
  - apply num_compare_Fin_Gt in E. exists p. repeat split; auto; lra.
  - discriminate E.
Qed.

(** [Math.max(lo, Math.min(hi, v))]: never below [lo]; at most [hi]
    unless it is [lo] itself; and one of the three. *)
Lemma clamp_Fin (lo hi v : Q) :
  exists c, num_max (Fin lo) (num_min (Fin hi) (Fin v)) = Fin c /\
            lo <= c /\ (c <= hi \/ c = lo) /\ (c = v \/ c = lo \/ c = hi).
Proof.
  destruct (num_min_Fin hi v) as (m & -> & Hm & Hm1 & Hm2).
  destruct (num_max_Fin lo m) as (c & -> & Hc & Hc1 & Hc2).
  exists c. repeat split; auto.
  - destruct Hc as [-> | ->]; auto.
  - destruct Hc as [-> | ->]; auto. destruct Hm as [-> | ->]; auto.
Qed.

(** The same with the arguments of [Math.min] the other way round, as
    [handleTrackClick] writes it. *)
Lemma clamp_Fin' (lo hi v : Q) :
  exists c, num_max (Fin lo) (num_min (Fin v) (Fin hi)) = Fin c /\
            lo <= c /\ (c <= hi \/ c = lo) /\ (c = v \/ c = lo \/ c = hi).
Proof.
  destruct (num_min_Fin v hi) as (m & -> & Hm & Hm1 & Hm2).
  destruct (num_max_Fin lo m) as (c & -> & Hc & Hc1 & Hc2).
  exists c. repeat split; auto.
  - destruct Hc as [-> | ->]; auto.
  - destruct Hc as [-> | ->]; auto. destruct Hm as [-> | ->]; auto.
Qed.

Lemma num_div_Fin (p q : Q) :
  ~ q == 0 -> num_div (Fin p) (Fin q) = Fin (Qred (p / q)).
Proof.
  intros Hq. simpl. destruct (Qeq_bool q 0) eqn:E; [|reflexivity].
  apply Qeq_bool_iff in E. contradiction.
Qed.

(** A ratio of [c] to [d], in percent, is a percentage when [0 <= c <= d]. *)
Lemma percent_within (c d : Q) :
  0 < d -> 0 <= c -> c <= d ->
  within 0 100 (num_mul (num_div (Fin c) (Fin d)) (Fin 100)).
Proof.
  intros Hd Hc Hcd.
  rewrite num_div_Fin by (intros E; rewrite E in Hd; discriminate Hd).
  unfold num_mul, within. rewrite !Qred_correct.
  assert (H0 : 0 <= c / d) by (apply Qle_shift_div_l; [exact Hd | lra]).
  assert (H1 : c / d <= 1) by (apply Qle_shift_div_r; [exact Hd | lra]).
  lra.
Qed.

Lemma num_sub_Fin (p q : Q) : num_sub (Fin p) (Fin q) = Fin (Qred (p - q)).
Proof. reflexivity. Qed.

Lemma num_add_Fin (p q : Q) : num_add (Fin p) (Fin q) = Fin (Qred (p + q)).
Proof. reflexivity. Qed.

Lemma num_mul_Fin (p q : Q) : num_mul (Fin p) (Fin q) = Fin (Qred (p * q)).
Proof. reflexivity. Qed.

Lemma num_half_Fin (p : Q) :
  num_div (Fin p) (Fin (inject_Z 2)) = Fin (Qred (p / 2)).
Proof. reflexivity. Qed.

(** Unfolds the arithmetic of the interface at the exact numbers. *)
Ltac js_number :=
  cbn [add sub mul div gt lit strict_ne Object_is Math_max Math_min
       Math_round truthy number_JSNumber] in *.

(** Names every [Qred t] and keeps [Qred t == t] only. *)
Ltac qred_abstract :=
  repeat match goal with
  | |- context [Qred ?t] =>
      let H := fresh "Hred" in
      pose proof (Qred_correct t) as H; generalize dependent (Qred t); intros
  | _ : context [Qred ?t] |- _ =>
      let H := fresh "Hred" in
      pose proof (Qred_correct t) as H; generalize dependent (Qred t); intros
  end.

Ltac q_solve :=
  repeat match goal with
  | H : _ \/ _ |- _ => destruct H
  | H : _ /\ _ |- _ => destruct H
  end;
  subst; qred_abstract;
  unfold Qdiv, inject_Z in *; change (/ 2)%Q with (1 # 2)%Q in *;
  lra.

Lemma percentOf_y_within (params : Params number) (pr er : DOMRect.t number)
    (off : Position.t number) (p : Pointer number) :
  measured pr -> measured er -> finite_position off -> finite_pointer p ->
  positive (DOMRect.height pr) ->
  (centered params = true ->
   at_most_twice (DOMRect.height er) (DOMRect.height pr)) ->
  within 0 100 (Position.y (percentOf params pr er off p)).
Proof.
  destruct pr as [pl pt pw ph], er as [el et ew eh], off as [ox oy],
    p as [cx cy].
  unfold measured, finite_position, finite_pointer, positive, at_most_twice;
    cbn [DOMRect.left DOMRect.top DOMRect.width DOMRect.height
         Position.x Position.y clientX clientY].
  intros (_ & Hpt & _ & Hph) (_ & _ & _ & Heh) (_ & Hoy) (_ & Hcy) Hpos Htw.
  destruct pt as [| | |pt]; try contradiction.
  destruct ph as [| | |ph]; try contradiction.
  destruct eh as [| | |eh]; try contradiction.
  destruct oy as [| | |oy]; try contradiction.
  destruct cy as [| | |cy]; try contradiction.
  unfold nonneg in *.
  unfold percentOf;
    cbn [DOMRect.left DOMRect.top DOMRect.width DOMRect.height
         Position.x Position.y clientX clientY].
  js_number.
  destruct (centered params);
    [specialize (Htw eq_refl) | clear Htw];
    rewrite ?num_half_Fin, ?num_sub_Fin;
    edestruct clamp_Fin as (c & -> & Hlo & Hhi & _);
    apply percent_within; q_solve.
Qed.

Lemma percentOf_x_within (params : Params number) (pr er : DOMRect.t number)
    (off : Position.t number) (p : Pointer number) :
  measured pr -> measured er -> finite_position off -> finite_pointer p ->
  (useOffset params = false -> positive (DOMRect.width pr)) ->
  (centered params = true ->
   at_most_twice (DOMRect.width er) (DOMRect.width pr)) ->
  centered params && useOffset params = false ->
  within 0 100 (Position.x (percentOf params pr er off p)).
Proof.
  destruct pr as [pl pt pw ph], er as [el et ew eh], off as [ox oy],
    p as [cx cy].
  unfold measured, finite_position, finite_pointer, positive, at_most_twice;
    cbn [DOMRect.left DOMRect.top DOMRect.width DOMRect.height
         Position.x Position.y clientX clientY].
  intros (Hpl & _ & Hpw & _) (_ & _ & Hew & _) (Hox & _) (Hcx & _) Hpos Htw Hco.
  destruct pl as [| | |pl]; try contradiction.
  destruct pw as [| | |pw]; try contradiction.
  destruct ew as [| | |ew]; try contradiction.
  destruct ox as [| | |ox]; try contradiction.
  destruct cx as [| | |cx]; try contradiction.
  unfold nonneg in *.
  unfold percentOf;
    cbn [DOMRect.left DOMRect.top DOMRect.width DOMRect.height
         Position.x Position.y clientX clientY].
  js_number.
  destruct (centered params), (useOffset params); try discriminate Hco;
    [specialize (Htw eq_refl); specialize (Hpos eq_refl)
    | clear Htw Hpos
    | clear Htw; specialize (Hpos eq_refl)];
    rewrite ?num_half_Fin, ?num_sub_Fin.
  - edestruct clamp_Fin as (c & -> & Hlo & Hhi & _).
    apply percent_within; q_solve.
  - destruct (num_gt _ _) eqn:E; [|unfold within, inject_Z; lra].
    apply num_gt_Fin in E.
    edestruct clamp_Fin as (c & -> & Hlo & Hhi & _).
    apply percent_within; q_solve.
  - edestruct clamp_Fin as (c & -> & Hlo & Hhi & _).
    apply percent_within; q_solve.
Qed.

(* ================================================================= *)
(** ** The drag engine: position bounds *)

(** C1: the code breaks the bound when [centered] and [useOffset] are both
    on.  The clamp keeps the centre of the element between half its width
    and the parent's width less half its width, but the percentage is
    taken of the parent's width less the whole width, without taking the
    lower bound off first.  On the page, in double precision, a press in
    the middle of the thumb followed by a move far to the right leaves
    [position.x] at 105.55555555555556, and a move far to the left at
    5.555555555555555; with either option alone the same drag gives 100
    and 0 ([useOffset]), 95 and 5 ([centered]). *)
Theorem C1_centered_offset_exceeds_100 :
  let drag (params : Params binary64) (cx : Z) : binary64 :=
    Position.x
      (position
         (onMouseMove params
            (onMouseDown params (useDraggable params)
               (mouse thumbEl 10 12) (Some thumbEl))
            (mouse thumbEl cx 12))) in
  drag centeredOffsetParams 1000%Z = b64_decimal 10555555555555556 14 /\
  gt (drag centeredOffsetParams 1000%Z) (lit 100) = true /\
  drag centeredOffsetParams (-1000)%Z = b64_decimal 5555555555555555 15 /\
  drag sliderParams 1000%Z = lit 100 /\
  drag sliderParams (-1000)%Z = lit 0 /\
  drag centeredParams 1000%Z = lit 95 /\
  drag centeredParams (-1000)%Z = lit 5.
Proof. vm_compute. repeat split. Qed.

(** The same drag in exact arithmetic: [950/9] and [50/9]. *)
Example centered_offset_exceeds_100_exactly :
  let st := onMouseDown centeredOffsetParams (useDraggable centeredOffsetParams)
              (mouse thumbEl 10 12) (Some thumbEl) in
  isDragging st = true /\
  position (onMouseMove centeredOffsetParams st (mouse thumbEl 1000 12))
  = Position.mk (Fin (950 # 9)) (Fin 50) /\
  position (onMouseMove centeredOffsetParams st (mouse thumbEl (-1000) 12))
  = Position.mk (Fin (50 # 9)) (Fin 50).
Proof. repeat split. Qed.

(** Every other path keeps the bound.  In exact arithmetic, during a drag
    over measured rectangles whose parent has a positive height (and a
    positive width outside offset mode), every pointer-move leaves
    [position.y] within [0,100], and [position.x] too unless [centered]
    and [useOffset] are both on; with [centered] on, the element is
    assumed to be at most twice as large as its parent. *)
Lemma position_within_bounds :
  forall (params : Params number) (st : DragState number)
         (_event : DomEvent number) (event : Pointer number)
         (pr er : DOMRect.t number),
    isDragging st = true ->
    parentRect st = Some pr ->
    elementRect st = Some er ->
    pointer_of _event = Some event ->
    measured pr -> measured er ->
    finite_position (relativeClickOffset st) -> finite_pointer event ->
    (useOffset params = false -> positive (DOMRect.width pr)) ->
    positive (DOMRect.height pr) ->
    (centered params = true ->
     at_most_twice (DOMRect.width er) (DOMRect.width pr) /\
     at_most_twice (DOMRect.height er) (DOMRect.height pr)) ->
    let pos := position (onMouseMove params st _event) in
    within 0 100 (Position.y pos) /\
    (centered params && useOffset params = false ->
     within 0 100 (Position.x pos)).
Proof.
  intros params st _event event pr er Hdrag Hpr Her Hev Mpr Mer Foff Fev
    Hw Hh Htw pos.
  subst pos. unfold onMouseMove. rewrite Hdrag, Hpr, Her, Hev.
  cbn [position log set_position]. split.
  - apply percentOf_y_within; auto. intros Hc. apply (Htw Hc).
  - intros Hco. apply percentOf_x_within; auto. intros Hc. apply (Htw Hc).
Qed.

(** The assumptions of the lemma are needed.  A parent without extent
    makes both coordinates [0/0]. *)
Example hidden_parent_gives_NaN :
  let st := onMouseDown plainParams (useDraggable plainParams)
              (mouse hiddenEl 0 0) (Some hiddenEl) in
  position (onMouseMove plainParams st (mouse hiddenEl 5 5))
  = Position.mk NaN NaN.
Proof. reflexivity. Qed.

(** A centred element more than twice as wide as its parent stays at half
    its width, here 150 percent of the parent. *)
Example huge_centred_element_leaves_parent :
  let st := onMouseDown centeredParams (useDraggable centeredParams)
              (mouse hugeEl 300 12) (Some hugeEl) in
  position (onMouseMove centeredParams st (mouse hugeEl 50 12))
  = Position.mk (Fin 150) (Fin 50).
Proof. reflexivity. Qed.

(** C9: in offset mode, when the captured parent is no wider than the
    element, every pointer-move of the drag sets [position.x] to [0]; the
    division by the offset width is not reached. *)
Theorem C9_no_travel_gives_zero :
  forall (params : Params number) (st : DragState number)
         (_event : DomEvent number) (event : Pointer number)
         (pr er : DOMRect.t number) (pw ew : Q),
    useOffset params = true ->
    isDragging st = true ->
    parentRect st = Some pr ->
    elementRect st = Some er ->
    pointer_of _event = Some event ->
    DOMRect.width pr = Fin pw ->
    DOMRect.width er = Fin ew ->
    pw <= ew ->
    Position.x (position (onMouseMove params st _event)) = Fin 0.
Proof.
  intros params st _event event pr er pw ew Hoff Hdrag Hpr Her Hev Hpw Hew Hle.
  unfold onMouseMove. rewrite Hdrag, Hpr, Her, Hev.
  cbn [position log set_position]. unfold percentOf.
  cbn [Position.x]. rewrite Hoff, Hpw, Hew. js_number.
  rewrite num_sub_Fin.
  destruct (num_gt _ _) eqn:E; [|reflexivity].
  apply num_gt_Fin in E. rewrite Qred_correct in E.
  unfold inject_Z in E. lra.
Qed.

Lemma C9_no_travel_gives_zero_witness :
  let st := onMouseDown sliderParams (useDraggable sliderParams)
              (mouse wideThumbEl 10 12) (Some wideThumbEl) in
  Position.x (position (onMouseMove sliderParams st (mouse wideThumbEl 150 12)))
  = Fin 0.
Proof.
  apply (@C9_no_travel_gives_zero sliderParams _ _
           {| clientX := Fin 150; clientY := Fin 12 |}
           (rect 0 0 200 24) (rect 0 2 200 20) 200 200);
    try reflexivity.
  apply Qle_refl.
Defined.

(* ================================================================= *)
(** ** The drag engine: presses that start no drag *)

Section Presses.

Context {N : Type} `{JSNumber N}.

Lemma onMouseDown_ignored (params : Params N) (st : DragState N)
    (_event : DomEvent N) (element : option (Element N)) :
  ignored params _event = true ->
  onMouseDown params st _event element = st.
Proof.
  intros Hig. unfold onMouseDown.
  destruct element as [element|]; [|reflexivity].
  destruct (parentElement element); [|reflexivity].
  now rewrite Hig.
Qed.

(** Induction along the chain of parents. *)
Lemma Element_parent_ind (P : Element N -> Prop) :
  (forall n m r, P (mkElement n m r None)) ->
  (forall n m r parent, P parent -> P (mkElement n m r (Some parent))) ->
  forall e, P e.
Proof.
  intros Hroot Hchild. fix IH 1.
  intros [n m r [parent|]]; [apply Hchild, IH | apply Hroot].
Qed.

(** [closest] finds something exactly when the element or one of its
    ancestors matches. *)
Lemma closest_inside (sel : string) (e : Element N) :
  closest sel e <> None <-> inside_selector sel e.
Proof.
  induction e as [n m r | n m r parent IH] using Element_parent_ind;
    cbn [closest]; destruct (m sel) eqn:Em.
  - split; [intros _ | discriminate]. now apply inside_selector_self.
  - split; [contradiction|].
    intros Hin. inversion Hin as [e He | e p Hp _]; subst.
    + cbn in He. congruence.
    + discriminate Hp.
  - split; [intros _ | discriminate]. now apply inside_selector_self.
  - rewrite IH. split.
    + intros Hin. now apply inside_selector_parent with parent.
    + intros Hin. inversion Hin as [e He | e p Hp Hin']; subst.
      * cbn in He. congruence.
      * cbn in Hp. now injection Hp as <-.
Qed.

(** [contains] says whether the element is the given one or inside it. *)
Lemma contains_inside (a e : Element N) :
  contains a e = true <-> inside_element a e.
Proof.
  induction e as [n m r | n m r parent IH] using Element_parent_ind;
    cbn [contains].
  - rewrite Bool.orb_false_r, Nat.eqb_eq. split.
    + intros Hn. now apply inside_element_self.
    + intros Hin. inversion Hin as [e He | e p Hp _]; subst.
      * now cbn in He.
      * discriminate Hp.
  - rewrite Bool.orb_true_iff, Nat.eqb_eq, IH. split.
    + intros [Hn | Hin].
      * now apply inside_element_self.
      * now apply inside_element_parent with parent.
    + intros Hin. inversion Hin as [e He | e p Hp Hin']; subst.
      * left. now cbn in He.
      * right. cbn in Hp. now injection Hp as <-.
Qed.

End Presses.

(** C7: a press whose origin is inside the ignored region starts no drag.
    When [ignore] is a (non-empty) selector that the origin or one of its
    ancestors matches, or a ref to an element that is the origin or
    contains it, [onMouseDown] returns the state it was given: [isDragging],
    [position] and the listeners on [document] are as before. *)
Theorem C7_ignored_press_starts_no_drag :
  forall (N : Type) (JS : JSNumber N) (params : Params N) (st : DragState N)
         (_event : DomEvent N) (element : option (Element N)),
    (exists sel, ignore params = Some (IgnoreSelector sel) /\
                 sel <> EmptyString /\
                 inside_selector sel (target _event)) \/
    (exists el, ignore params = Some (IgnoreRef (Some el)) /\
                inside_element el (target _event)) ->
    onMouseDown params st _event element = st.
Proof.
  intros N JS params st _event element Hig.
  apply onMouseDown_ignored. unfold ignored.
  destruct Hig as [(sel & -> & Hsel & Hin) | (el & -> & Hin)].
  - destruct sel; [contradiction|].
    apply closest_inside in Hin.
    destruct (closest _ _); [reflexivity | contradiction].
  - now apply contains_inside.
Qed.

(** A press on the icon inside the close button of the panel. *)
Lemma C7_ignored_press_starts_no_drag_witness :
  onMouseDown panelParams (useDraggable panelParams)
    (mouse (N := number) iconEl 105 10) (Some panelEl)
  = useDraggable panelParams.
Proof.
  apply C7_ignored_press_starts_no_drag. left.
  exists ".close-button"%string. split; [reflexivity|].
  split; [discriminate|].
  apply inside_selector_parent with closeEl; [reflexivity|].
  apply inside_selector_self. reflexivity.
Defined.

(** C8: [onMouseDown] without an element, with an element that has no
    parent, or with a touch event that carries no touch point leaves
    [isDragging], [position] and the listeners on [document] as they
    were. *)
Theorem C8_press_without_element_or_touch_point :
  forall (N : Type) (JS : JSNumber N) (params : Params N) (st : DragState N)
         (_event : DomEvent N) (element : option (Element N)),
    element = None \/
    (exists el, element = Some el /\ parentElement el = None) \/
    (exists t, _event = TouchEvent t []) ->
    let st' := onMouseDown params st _event element in
    isDragging st' = isDragging st /\
    position st' = position st /\
    listeners st' = listeners st.
Proof.
  intros N JS params st _event element Hcase st'. subst st'.
  unfold onMouseDown.
  destruct Hcase as [-> | [(el & -> & ->) | (t & ->)]]; auto.
  destruct element as [element|]; auto.
  destruct (parentElement element); auto.
  destruct (ignored _ _); auto.
Qed.

Lemma C8_press_without_element_or_touch_point_witness :
  let st' := onMouseDown sliderParams (useDraggable sliderParams)
               (TouchEvent (N := number) thumbEl []) (Some thumbEl) in
  isDragging st' = false /\
  position st' = Position.mk (Fin 0) (Fin 0) /\
  listeners st' = no_listeners.
Proof.
  exact (@C8_press_without_element_or_touch_point number _ sliderParams
           (useDraggable sliderParams) (TouchEvent thumbEl []) (Some thumbEl)
           (or_intror (or_intror (ex_intro _ thumbEl eq_refl)))).
Defined.

(** Such a touch event has still had its default action cancelled: the
    call of [preventDefault] comes before the test of the touch point. *)
Example touch_without_point_is_prevented :
  effects (onMouseDown sliderParams (useDraggable sliderParams)
             (TouchEvent (N := number) thumbEl []) (Some thumbEl))
  = [PreventDefault].
Proof. reflexivity. Qed.

(* ================================================================= *)
(** ** The slider while disabled *)

#[export] Instance number_JSNumberLaws : JSNumberLaws number.
Proof.
  split. intros [| | |q]; try reflexivity.
  cbn. unfold num_Object_is, num_compare.
  now rewrite (proj1 (Qeq_alt q q) (Qeq_refl q)).
Qed.

#[export] Instance binary64_JSNumberLaws : JSNumberLaws binary64.
Proof.
  split. intros [s|s|
                 |s m e]; cbn.
  - apply Bool.eqb_reflx.
  - now destruct s.
  - reflexivity.
  - unfold SFeqb, SFcompare.
    rewrite Z.compare_refl, Pos.compare_cont_refl. now destruct s.
Qed.

Section SliderRuns.

Context {N : Type} `{JSNumber N}.

Lemma emitted_app (l l' : list (Effect N)) :
  emitted (l ++ l') = emitted l ++ emitted l'.
Proof.
  induction l as [|[| |v] l IH]; simpl; auto. now rewrite IH.
Qed.

Lemma onMouseDown_emitted (params : Params N) (st : DragState N)
    (_event : DomEvent N) (element : option (Element N)) :
  emitted (effects (onMouseDown params st _event element))
  = emitted (effects st).
Proof.
  unfold onMouseDown.
  destruct element as [element|]; auto.
  destruct (parentElement element); auto.
  destruct (ignored _ _); auto.
  destruct (has_touches _event), (pointer_of _event); cbn [effects log]; auto;
    rewrite emitted_app; apply app_nil_r.
Qed.

Lemma onMouseMove_emitted (params : Params N) (st : DragState N)
    (_event : DomEvent N) :
  emitted (effects (onMouseMove params st _event)) = emitted (effects st).
Proof.
  unfold onMouseMove.
  destruct (isDragging st), (parentRect st), (elementRect st),
    (pointer_of _event); cbn [effects log set_position]; auto.
  rewrite emitted_app. apply app_nil_r.
Qed.

Lemma dispatchMove_emitted (st : DragState N) (_event : DomEvent N) :
  emitted (effects (dispatchMove st _event)) = emitted (effects st).
Proof.
  unfold dispatchMove.
  destruct (if has_touches _event then _ else _); auto.
  apply onMouseMove_emitted.
Qed.

Lemma dispatchRelease_emitted (st : DragState N) (touch : bool) :
  emitted (effects (dispatchRelease st touch)) = emitted (effects st).
Proof.
  unfold dispatchRelease.
  destruct (if touch then _ else _); auto.
Qed.

Lemma flush_watch_disabled (props : SliderProps.t N) (oldX : N)
    (st : DragState N) :
  SliderProps.disabled props = true -> flush_watch props oldX st = st.
Proof.
  intros Hd. unfold flush_watch, watch_position_x. rewrite Hd.
  now destruct (Object_is _ _).
Qed.

Lemma flush_watch_unchanged `{!JSNumberLaws N} (props : SliderProps.t N)
    (st : DragState N) :
  flush_watch props (Position.x (position st)) st = st.
Proof. unfold flush_watch. now rewrite Object_is_refl. Qed.

Lemma handleTrackClick_sync_disabled (props : SliderProps.t N)
    (st : DragState N) (_event : DomEvent N)
    (trackRef thumbRef : option (Element N)) :
  SliderProps.disabled props = true ->
  handleTrackClick_sync props st _event trackRef thumbRef = (st, false).
Proof. intros Hd. unfold handleTrackClick_sync. now rewrite Hd. Qed.

Lemma step_disabled_emitted (props props' : SliderProps.t N)
    (st : DragState N) (ev : SliderEvent N) :
  SliderProps.disabled props = true ->
  SliderProps.disabled props' = true ->
  emitted (effects (step props props' st ev)) = emitted (effects st).
Proof.
  intros Hd Hd'. destruct ev as [e el|e|t|e tr th th']; cbn [step].
  - rewrite flush_watch_disabled by exact Hd'. apply onMouseDown_emitted.
  - rewrite flush_watch_disabled by exact Hd'. apply dispatchMove_emitted.
  - rewrite flush_watch_disabled by exact Hd'. apply dispatchRelease_emitted.
  - unfold handleTrackClick.
    rewrite handleTrackClick_sync_disabled by exact Hd.
    now rewrite flush_watch_disabled by exact Hd'.
Qed.

(** *** The captured session is an invariant of every run *)

Lemma log_captured (e : Effect N) (st : DragState N) :
  session_captured st -> session_captured (log e st).
Proof. exact (fun H => H). Qed.

Lemma set_position_captured (p : Position.t N) (st : DragState N) :
  session_captured st -> session_captured (set_position p st).
Proof. exact (fun H => H). Qed.

Lemma onMouseDown_captured (params : Params N) (st : DragState N)
    (_event : DomEvent N) (element : option (Element N)) :
  session_captured st ->
  session_captured (onMouseDown params st _event element).
Proof.
  intros Hst. unfold onMouseDown.
  destruct element as [element|]; auto.
  destruct (parentElement element); auto.
  destruct (ignored _ _); auto.
  destruct (pointer_of _event).
  - intros _. cbn. eauto.
  - destruct (has_touches _event); auto.
Qed.

Lemma onMouseMove_captured (params : Params N) (st : DragState N)
    (_event : DomEvent N) :
  session_captured st -> session_captured (onMouseMove params st _event).
Proof.
  intros Hst. unfold onMouseMove.
  destruct (isDragging st), (parentRect st), (elementRect st),
    (pointer_of _event); auto.
Qed.

Lemma flush_watch_captured (props : SliderProps.t N) (oldX : N)
    (st : DragState N) :
  session_captured st -> session_captured (flush_watch props oldX st).
Proof.
  intros Hst. unfold flush_watch.
  destruct (Object_is _ _); auto.
  destruct (watch_position_x _ _); auto.
Qed.

Lemma handleTrackClick_sync_captured (props : SliderProps.t N)
    (st : DragState N) (_event : DomEvent N)
    (trackRef thumbRef : option (Element N)) :
  session_captured st ->
  session_captured (fst (handleTrackClick_sync props st _event trackRef thumbRef)).
Proof.
  intros Hst. unfold handleTrackClick_sync.
  destruct (SliderProps.disabled props); auto.
  destruct trackRef, thumbRef; auto.
  destruct (pointer_of _event); auto.
  cbn [fst]. destruct (strict_ne _ _); auto.
Qed.

Lemma step_captured (props props' : SliderProps.t N) (st : DragState N)
    (ev : SliderEvent N) :
  session_captured st -> session_captured (step props props' st ev).
Proof.
  intros Hst. destruct ev as [e el|e|t|e tr th th']; cbn [step].
  - now apply flush_watch_captured, onMouseDown_captured.
  - apply flush_watch_captured. unfold dispatchMove.
    destruct (if has_touches e then _ else _); auto.
    now apply onMouseMove_captured.
  - apply flush_watch_captured. unfold dispatchRelease.
    destruct (if t then _ else _); auto. intros Hd. discriminate Hd.
  - unfold handleTrackClick.
    pose proof (handleTrackClick_sync_captured props e tr th Hst) as Hs.
    destruct (handleTrackClick_sync props st e tr th) as [st1 aw].
    cbn [fst] in Hs. destruct aw.
    + now apply onMouseDown_captured, flush_watch_captured.
    + now apply flush_watch_captured.
Qed.

Lemma run_captured (turns : list (Turn N)) (st : DragState N) :
  session_captured st -> session_captured (run st turns).
Proof.
  revert st. induction turns as [|t turns IH]; intros st Hst; cbn [run]; auto.
  apply IH, step_captured, Hst.
Qed.

Lemma useDraggable_captured (params : Params N) :
  session_captured (useDraggable params).
Proof. intros Hd. discriminate Hd. Qed.

Lemma run_disabled_emitted (turns : list (Turn N)) (st : DragState N) :
  Forall (fun t => SliderProps.disabled (before t) = true /\
                   SliderProps.disabled (after t) = true) turns ->
  emitted (effects (run st turns)) = emitted (effects st).
Proof.
  intros Hall. revert st.
  induction Hall as [|t turns [Hb Ha] _ IH]; intros st; cbn [run]; auto.
  rewrite IH. now apply step_disabled_emitted.
Qed.

(** A move during a drag sets the position the engine computes. *)
Lemma step_move_position (props props' : SliderProps.t N) (st : DragState N)
    (_event : DomEvent N) (event : Pointer N) :
  session_captured st ->
  isDragging st = true ->
  pointer_of _event = Some event ->
  exists pr er,
    parentRect st = Some pr /\ elementRect st = Some er /\
    position (step props props' st (DocumentMove _event))
    = percentOf sliderParams pr er (relativeClickOffset st) event.
Proof.
  intros Hst Hdrag Hev.
  destruct (Hst Hdrag) as ((pr & er & Hpr & Her) & Hl).
  exists pr, er. split; [exact Hpr|]. split; [exact Her|].
  cbn [step].
  assert (Hpos : forall p o s, position (flush_watch p o s) = position s).
  { intros p o s. unfold flush_watch.
    destruct (Object_is _ _); auto. destruct (watch_position_x _ _); auto. }
  rewrite Hpos. unfold dispatchMove. rewrite Hl.
  cbn [touchmove mousemove all_listeners].
  replace (if has_touches _event then true else true) with true
    by now destruct (has_touches _event).
  unfold onMouseMove. now rewrite Hdrag, Hpr, Her, Hev.
Qed.

End SliderRuns.

(** A press with a pointer on an element that has a parent, not ignored,
    starts a drag and records the rectangles and the offset of the press. *)
Lemma onMouseDown_started {N : Type} `{JSNumber N} (params : Params N)
    (st : DragState N) (_event : DomEvent N) (event : Pointer N)
    (element parent : Element N) :
  parentElement element = Some parent ->
  pointer_of _event = Some event ->
  ignored params _event = false ->
  let st' := onMouseDown params st _event (Some element) in
  isDragging st' = true /\
  parentRect st' = Some (getBoundingClientRect parent) /\
  elementRect st' = Some (getBoundingClientRect element) /\
  relativeClickOffset st'
  = Position.mk
      (clientX event - DOMRect.left (getBoundingClientRect element) -
       (if centered params
        then DOMRect.width (getBoundingClientRect element) / lit 2
        else lit 0))%js
      (clientY event - DOMRect.top (getBoundingClientRect element) -
       (if centered params
        then DOMRect.height (getBoundingClientRect element) / lit 2
        else lit 0))%js.
Proof.
  intros Hparent Hev Hig. cbv zeta. unfold onMouseDown.
  rewrite Hparent, Hig, Hev. cbn. auto.
Qed.


(** A move on [document] leaves the session as it is: only the position
    and the log change. *)
Lemma dispatchMove_session {N : Type} `{JSNumber N} (st : DragState N)
    (_event : DomEvent N) :
  let st' := dispatchMove st _event in
  isDragging st' = isDragging st /\
  parentRect st' = parentRect st /\
  elementRect st' = elementRect st /\
  relativeClickOffset st' = relativeClickOffset st /\
  listeners st' = listeners st.
Proof.
  cbv zeta. unfold dispatchMove, onMouseMove.
  destruct (if has_touches _event then touchmove (listeners st)
            else mousemove (listeners st)); [|now repeat split].
  destruct (isDragging st) eqn:Edrag, (parentRect st) eqn:Epr,
    (elementRect st) eqn:Eer, (pointer_of _event);
    cbn [log set_position isDragging parentRect elementRect
         relativeClickOffset listeners];
    rewrite ?Edrag, ?Epr, ?Eer; now repeat split.
Qed.

(** So do any number of moves while [disabled], and they emit nothing. *)
Lemma disabled_moves_session {N : Type} `{JSNumber N}
    (props props' : SliderProps.t N) (moves : list (DomEvent N))
    (st : DragState N) :
  SliderProps.disabled props' = true ->
  let st' :=
    run st (map (fun m => {| before := props; event := DocumentMove m;
                             after := props' |}) moves) in
  isDragging st' = isDragging st /\
  parentRect st' = parentRect st /\
  elementRect st' = elementRect st /\
  relativeClickOffset st' = relativeClickOffset st /\
  listeners st' = listeners st /\
  emitted (effects st') = emitted (effects st).
Proof.
  intros Hd'. cbv zeta. revert st.
  induction moves as [|m moves IH]; intros st; [now repeat split|].
  cbn [map run before event after step].
  rewrite flush_watch_disabled by exact Hd'.
  destruct (IH (dispatchMove st m)) as (E1 & E2 & E3 & E4 & E5 & E6).
  destruct (dispatchMove_session st m) as (F1 & F2 & F3 & F4 & F5).
  rewrite E1, E2, E3, E4, E5, E6, F1, F2, F3, F4, F5.
  now rewrite dispatchMove_emitted.
Qed.

(** C6: while [disabled] stays true, dragging the thumb moves the engine's
    position on every move and nothing is emitted.  After any run of the
    slider under disabled props, a press on the thumb (which has a
    parent) with a pointer starts a drag; the drag is still on after any
    number of moves; and each further pointer-move sets [position] to
    the percentages the engine computes from the rectangles of the thumb
    and of its parent, the offset of the press and the pointer: the
    clamped coordinate over the travel, times 100 (0 when there is no
    travel), and the clamped vertical coordinate over the parent's
    height, times 100.  No value is emitted, neither by the run nor by
    the press and the moves. *)
Theorem C6_disabled_drag_moves_but_never_emits :
  forall (N : Type) (JS : JSNumber N) (turns : list (Turn N))
         (props props' : SliderProps.t N) (press move : DomEvent N)
         (moves : list (DomEvent N))
         (thumb parent : Element N) (p0 p1 : Pointer N),
    Forall (fun t => SliderProps.disabled (before t) = true /\
                     SliderProps.disabled (after t) = true) turns ->
    SliderProps.disabled props = true ->
    SliderProps.disabled props' = true ->
    parentElement thumb = Some parent ->
    pointer_of press = Some p0 ->
    pointer_of move = Some p1 ->
    let st := run (useDraggable sliderParams) turns in
    let st1 := step props props' st (ThumbPress press (Some thumb)) in
    let stm :=
      run st1 (map (fun m => {| before := props; event := DocumentMove m;
                                after := props' |}) moves) in
    let st2 := step props props' stm (DocumentMove move) in
    let er := getBoundingClientRect thumb in
    let pr := getBoundingClientRect parent in
    let offsetX := (clientX p0 - DOMRect.left er - lit 0)%js in
    let offsetY := (clientY p0 - DOMRect.top er - lit 0)%js in
    let offsetWidth := (DOMRect.width pr - DOMRect.width er)%js in
    let newX :=
      Math_max (lit 0)
        (Math_min offsetWidth (clientX p1 - DOMRect.left pr - offsetX)%js) in
    let newY :=
      Math_max (lit 0)
        (Math_min (DOMRect.height pr - DOMRect.height er)%js
           (clientY p1 - DOMRect.top pr - offsetY)%js) in
    emitted (effects st) = [] /\
    isDragging st1 = true /\
    isDragging stm = true /\
    position st2
    = Position.mk
        (if (offsetWidth >? lit 0)%js
         then (newX / offsetWidth * lit 100)%js else lit 0)
        (newY / DOMRect.height pr * lit 100)%js /\
    emitted (effects st2) = [].
Proof.
  intros N JS turns props props' press move moves thumb parent p0 p1 Hall
    Hd Hd' Hparent Hpress Hmove st st1 stm st2 er pr offsetX offsetY
    offsetWidth newX newY.
  assert (Hst : emitted (effects st) = [])
    by (subst st; now rewrite run_disabled_emitted).
  destruct (onMouseDown_started sliderParams st press thumb Hparent Hpress
              eq_refl) as (Hdrag & Hprect & Herect & Hoff).
  assert (E1 : st1 = onMouseDown sliderParams st press (Some thumb)).
  { subst st1. cbn [step]. now apply flush_watch_disabled. }
  assert (Hl : listeners st1 = all_listeners).
  { rewrite E1. unfold onMouseDown. rewrite Hparent, Hpress.
    now destruct (has_touches press). }
  destruct (disabled_moves_session props props' moves st1 Hd')
    as (M1 & M2 & M3 & M4 & M5 & M6).
  fold stm in M1, M2, M3, M4, M5, M6.
  rewrite E1 in M1, M2, M3, M4, M6. rewrite Hl in M5.
  rewrite Hdrag in M1. rewrite Hprect in M2. rewrite Herect in M3.
  rewrite Hoff in M4. rewrite onMouseDown_emitted, Hst in M6.
  assert (E2 : st2 = onMouseMove sliderParams stm move).
  { subst st2. cbn [step]. rewrite flush_watch_disabled by exact Hd'.
    unfold dispatchMove. rewrite M5. now destruct (has_touches move). }
  split; [exact Hst|]. split; [now rewrite E1|]. split; [exact M1|]. split.
  - rewrite E2. unfold onMouseMove.
    rewrite M1, M2, M3, Hmove, M4. reflexivity.
  - rewrite E2, onMouseMove_emitted. exact M6.
Qed.

(** C10: while [disabled], [handleTrackClick] returns before it reads
    anything: it never reaches its [await], so [onMouseDown] is not
    called, and the state of the engine, with its position and the values
    emitted, is the one it was given. *)
Theorem C10_disabled_track_press_is_noop :
  forall (N : Type) (JS : JSNumber N) (L : JSNumberLaws N)
         (props props' : SliderProps.t N) (st : DragState N)
         (_event : DomEvent N) (trackRef thumbRef thumbRef' : option (Element N)),
    SliderProps.disabled props = true ->
    handleTrackClick_sync props st _event trackRef thumbRef = (st, false) /\
    handleTrackClick props props' st _event trackRef thumbRef thumbRef' = st.
Proof.
  intros N JS L props props' st _event trackRef thumbRef thumbRef' Hd.
  split; [now apply handleTrackClick_sync_disabled|].
  unfold handleTrackClick.
  rewrite handleTrackClick_sync_disabled by exact Hd.
  apply flush_watch_unchanged.
Qed.

(** On the page, in double precision: after a press on the track and a
    release, both without effect under disabled props, a drag of the
    thumb by way of 40 and 250 pixels to the middle of the track moves
    the position to 50 percent. *)
Lemma C6_disabled_drag_moves_but_never_emits_witness :
  let props : SliderProps.t binary64 := props_of 30 0 100 1 true in
  let turns :=
    [ {| before := props;
         event := TrackPress (mouse trackEl 150 12) (Some trackEl)
                    (Some thumbEl) (Some thumbEl);
         after := props |};
      {| before := props; event := DocumentRelease false; after := props |} ] in
  let st := run (useDraggable sliderParams) turns in
  let st1 := step props props st (ThumbPress (mouse thumbEl 10 12) (Some thumbEl)) in
  let stm :=
    run st1
      [ {| before := props; event := DocumentMove (mouse thumbEl 40 12);
           after := props |};
        {| before := props; event := DocumentMove (mouse thumbEl 250 12);
           after := props |} ] in
  let st2 := step props props stm (DocumentMove (mouse thumbEl 100 12)) in
  emitted (effects st) = [] /\
  isDragging st1 = true /\
  isDragging stm = true /\
  position st2 = Position.mk (lit 50) (b64_decimal 8333333333333332 15) /\
  emitted (effects st2) = [].
Proof.
  refine (@C6_disabled_drag_moves_but_never_emits binary64 _
           [ {| before := props_of 30 0 100 1 true;
                event := TrackPress (mouse trackEl 150 12) (Some trackEl)
                           (Some thumbEl) (Some thumbEl);
                after := props_of 30 0 100 1 true |};
             {| before := props_of 30 0 100 1 true;
                event := DocumentRelease false;
                after := props_of 30 0 100 1 true |} ]
           (props_of 30 0 100 1 true) (props_of 30 0 100 1 true)
           (mouse thumbEl 10 12) (mouse thumbEl 100 12)
           [mouse thumbEl 40 12; mouse thumbEl 250 12] thumbEl trackEl
           {| clientX := lit 10; clientY := lit 12 |}
           {| clientX := lit 100; clientY := lit 12 |}
           _ eq_refl eq_refl eq_refl eq_refl eq_refl).
  repeat constructor.
Defined.

(** The positions on the way, in double precision: 16.666666666666664
    percent at 40 pixels, 100 percent at 250, beyond the track. *)
Example disabled_drag_on_the_way :
  let props : SliderProps.t binary64 := props_of 30 0 100 1 true in
  let st1 :=
    step props props (useDraggable sliderParams)
      (ThumbPress (mouse thumbEl 10 12) (Some thumbEl)) in
  let st2 := step props props st1 (DocumentMove (mouse thumbEl 40 12)) in
  let st3 := step props props st2 (DocumentMove (mouse thumbEl 250 12)) in
  Position.x (position st1) = lit 0 /\
  Position.x (position st2) = b64_decimal 16666666666666664 15 /\
  Position.x (position st3) = lit 100 /\
  effects st3 = [DispatchUpdate; DispatchUpdate].
Proof. vm_compute. repeat split. Qed.

(** The same drag in exact arithmetic, from the start: the thumb is half
    way while the value stays at 30. *)
Example disabled_drag_moves_thumb :
  let turns :=
    [ {| before := props_of 30 0 100 1 true;
         event := ThumbPress (mouse thumbEl 10 12) (Some thumbEl);
         after := props_of 30 0 100 1 true |};
      {| before := props_of 30 0 100 1 true;
         event := DocumentMove (mouse thumbEl 100 12);
         after := props_of 30 0 100 1 true |} ] in
  let st := run (N := number) (useDraggable sliderParams) turns in
  isDragging st = true /\
  Position.x (position st) = Fin 50 /\
  effects st = [DispatchUpdate].
Proof. vm_compute. repeat split. Qed.

Lemma C10_disabled_track_press_is_noop_witness :
  let st := useDraggable (N := number) sliderParams in
  let props := props_of 30 0 100 1 true in
  handleTrackClick_sync props st (mouse trackEl 100 12)
    (Some trackEl) (Some thumbEl) = (st, false) /\
  handleTrackClick props props st (mouse trackEl 100 12)
    (Some trackEl) (Some thumbEl) (Some thumbEl) = st.
Proof.
  apply C10_disabled_track_press_is_noop; [exact _ | reflexivity].
Defined.

(* ================================================================= *)
(** ** The slider: the two scenarios *)

(** C4: with [min = 0], [max = 100] and [step = 10], the percentage 44
    stands for the value 40 and the percentage 46 for 50; the watcher
    emits them when the model value is another one. *)
Theorem C4_step_quantization :
  forall (modelValue : number) (disabled : bool),
    let props := SliderProps.mk modelValue (Fin 0) (Fin 100) (Fin 10) disabled in
    valueOfPercentage props (Fin 44) = Fin 40 /\
    valueOfPercentage props (Fin 46) = Fin 50 /\
    watch_position_x (props_of 0 0 100 10 false) (Fin 44) = Some (Fin 40) /\
    watch_position_x (props_of 0 0 100 10 false) (Fin 46) = Some (Fin 50).
Proof.
  intros modelValue disabled props. repeat split; reflexivity.
Qed.

(** The same in double precision. *)
Example C4_step_quantization_binary64 :
  watch_position_x (props_of 0 0 100 10 false) (lit 44 : binary64)
  = Some (lit 40) /\
  watch_position_x (props_of 0 0 100 10 false) (lit 46 : binary64)
  = Some (lit 50).
Proof. vm_compute. split; reflexivity. Qed.


(** The same in double precision. *)
Example C5_click_to_jump_binary64 :
  let props : SliderProps.t binary64 := props_of 0 0 100 1 false in
  let st := useDraggable sliderParams in
  handleTrackClick_sync props st (mouse trackEl 100 12)
    (Some trackEl) (Some thumbEl)
  = (log (Emit (lit 50)) (set_position (Position.mk (lit 50) (lit 0)) st), true).
Proof. vm_compute. reflexivity. Qed.

(* ================================================================= *)
(** ** The slider: values and percentages *)

Lemma num_div_100 (p : Q) :
  num_div (Fin p) (Fin (inject_Z 100)) = Fin (Qred (p / 100)).
Proof. reflexivity. Qed.

Lemma Qfloor_half (k : Z) : Qfloor (inject_Z k + (1 # 2)) = k.
Proof.
  unfold Qfloor, Qplus, inject_Z; cbn [Qnum Qden].
  rewrite Z.mul_1_l. change (Z.pos (1 * 2)) with 2%Z.
  rewrite Z.div_add_l by discriminate. change (1 / 2)%Z with 0%Z. lia.
Qed.

(** Rounding a multiple of the step to the nearest multiple gives it
    back. *)
Lemma round_multiple (step v r : Q) :
  0 < step -> multiple_of step v -> r == v ->
  exists w, num_mul (num_round (num_div (Fin r) (Fin step))) (Fin step) = Fin w
            /\ w == v.
Proof.
  intros Hs (k & Hk) Hr.
  rewrite num_div_Fin by lra.
  unfold num_round. rewrite num_mul_Fin. eexists. split; [reflexivity|].
  rewrite Qred_correct.
  assert (E : Qred (r / step) + (1 # 2) == inject_Z k + (1 # 2)).
  { rewrite Qred_correct, Hr, Hk. field. lra. }
  rewrite E, Qfloor_half. now rewrite Hk.
Qed.

(** A value already between the bounds goes through the clamp. *)
Lemma clamp_Fin_id (lo hi v : Q) :
  lo <= v <= hi ->
  exists c, num_max (Fin lo) (num_min (Fin hi) (Fin v)) = Fin c /\ c == v.
Proof.
  intros [Hlo Hhi].
  destruct (num_min_Fin hi v) as (m & -> & Hm & Hm1 & Hm2).
  destruct (num_max_Fin lo m) as (c & -> & Hc & Hc1 & Hc2).
  exists c. split; [reflexivity|].
  destruct Hc as [-> | ->], Hm as [-> | ->]; lra.
Qed.


(** Without a step the rounding of the interpolation shows as it is:
    with [min = -1], [max = 2] and [step = 0], the model value 0 comes
    back as [-2^-52], that is [-2.220446049250313e-16]. *)
Example round_trip_off_by_rounding :
  let props : SliderProps.t binary64 := props_of 0 (-1) 2 0 false in
  valueOfPercentage props (valueAsPercentage props)
  = (lit 0 - lit 1 / lit (2 ^ 52))%js /\
  watch_position_x props (valueAsPercentage props)
  = Some (lit 0 - lit 1 / lit (2 ^ 52))%js.
Proof. vm_compute. split; reflexivity. Qed.

(** At [min = max] there is no percentage to start from: it is [0/0]. *)
Example empty_range_has_no_percentage :
  valueAsPercentage (N := number) (props_of 0 0 0 1 false) = NaN /\
  valueAsPercentage (N := binary64) (props_of 0 0 0 1 false) = S754_nan.
Proof. vm_compute. split; reflexivity. Qed.









(** In double precision the round trip of the demo page ([min = 0],
    [max = 100]) is exact for each of the 101 values, at [step = 1] and
    at every whole step from 1 to 100 of which the value is a
    multiple. *)
Example round_trip_binary64_demo :
  forallb
    (fun s =>
       forallb
         (fun v =>
            if (v mod s =? 0)%Z
            then round_trips (props_of v 0 100 s false)
            else true)
         (zrange 0 100))
    (zrange 1 100)
  = true.
Proof. vm_compute. reflexivity. Qed.

(* ================================================================= *)
(** ** The slider: emitted values *)

Lemma quantized_in_range_on_grid (mn mx stp raw : Q) (quantize : bool) :
  mn <= mx ->
  (quantize = true -> 0 < stp) ->
  (quantize = false -> stp <= 0) ->
  in_range_on_grid mn mx stp
    (num_max (Fin mn)
       (num_min (Fin mx)
          (if quantize
           then num_mul (num_round (num_div (Fin raw) (Fin stp))) (Fin stp)
           else Fin raw))).
Proof.
  intros Hle Hq Hnq. destruct quantize.
  - specialize (Hq eq_refl). rewrite num_div_Fin by lra.
    unfold num_round. rewrite num_mul_Fin.
    edestruct clamp_Fin as (c & -> & Hlo & Hhi & Hc).
    unfold in_range_on_grid. split.
    + split; [exact Hlo|]. destruct Hhi as [Hhi | ->]; lra.
    + intros _. destruct Hc as [-> | [-> | ->]].
      * left. eexists. apply Qred_correct.
      * right. left. reflexivity.
      * right. right. reflexivity.
  - specialize (Hnq eq_refl).
    edestruct clamp_Fin as (c & -> & Hlo & Hhi & Hc).
    unfold in_range_on_grid. split.
    + split; [exact Hlo|]. destruct Hhi as [Hhi | ->]; lra.
    + intros Hpos. lra.
Qed.

Lemma valueOfPercentage_in_range_on_grid (mn mx stp p : Q)
    (props : SliderProps.t number) :
  has_range mn mx stp props -> mn <= mx ->
  in_range_on_grid mn mx stp (valueOfPercentage props (Fin p)).
Proof.
  intros (Hmn & Hmx & Hstp) Hle.
  unfold valueOfPercentage. rewrite Hmn, Hmx, Hstp. js_number.
  rewrite num_div_100, num_sub_Fin, num_mul_Fin, num_add_Fin.
  apply quantized_in_range_on_grid; auto.
  - intros E. apply num_gt_Fin in E. exact E.
  - intros E. apply num_gt_Fin_false in E. exact E.
Qed.

Lemma clickValue_in_range_on_grid (mn mx stp p : Q)
    (props : SliderProps.t number) :
  has_range mn mx stp props -> mn <= mx ->
  in_range_on_grid mn mx stp (clickValue props (Fin p)).
Proof.
  intros (Hmn & Hmx & Hstp) Hle.
  unfold clickValue. rewrite Hmn, Hmx, Hstp. js_number.
  rewrite num_div_100, num_sub_Fin, num_mul_Fin, num_add_Fin.
  apply quantized_in_range_on_grid; auto.
  - intros E. apply andb_prop in E as [_ E].
    apply num_gt_Fin in E. exact E.
  - intros E. apply Bool.andb_false_iff in E as [E | E].
    + unfold num_truthy in E. apply Bool.negb_false_iff, Qeq_bool_iff in E.
      rewrite E. discriminate.
    + apply num_gt_Fin_false in E. exact E.
Qed.

(** The percentage of a press on the track is a percentage. *)
Lemma clickPercentage_within (trackRect thumbRect : DOMRect.t number)
    (event : Pointer number) :
  measured trackRect -> measured thumbRect -> finite_pointer event ->
  within 0 100 (clickPercentage trackRect thumbRect event).
Proof.
  destruct trackRect as [tl tt tw th], thumbRect as [bl bt bw bh],
    event as [cx cy].
  unfold measured, finite_pointer;
    cbn [DOMRect.left DOMRect.top DOMRect.width DOMRect.height
         clientX clientY].
  intros (Htl & _ & Htw & _) (_ & _ & Hbw & _) (Hcx & _).
  destruct tl as [| | |tl]; try contradiction.
  destruct tw as [| | |tw]; try contradiction.
  destruct bw as [| | |bw]; try contradiction.
  destruct cx as [| | |cx]; try contradiction.
  unfold clickPercentage;
    cbn [DOMRect.left DOMRect.top DOMRect.width DOMRect.height
         clientX clientY].
  js_number. rewrite num_half_Fin, !num_sub_Fin.
  destruct (num_gt _ _) eqn:E; [|unfold within, inject_Z; lra].
  apply num_gt_Fin in E.
  edestruct clamp_Fin' as (c & -> & Hlo & Hhi & _).
  apply percent_within; q_solve.
Qed.

Section SliderInvariant.

Variables mn mx stp : Q.
Hypothesis mn_le_mx : mn <= mx.

Lemma log_inv (e : Effect number) (st : DragState number) :
  slider_inv mn mx stp st ->
  match e with Emit v => in_range_on_grid mn mx stp v | _ => True end ->
  slider_inv mn mx stp (log e st).
Proof.
  intros (Hx & Hpr & Her & Hoff & Hem) He.
  split; [exact Hx|]. split; [exact Hpr|]. split; [exact Her|].
  split; [exact Hoff|].
  cbn [effects log]. rewrite emitted_app. apply Forall_app. split; auto.
  destruct e; cbn; auto.
Qed.

Lemma set_position_inv (p : Position.t number) (st : DragState number) :
  slider_inv mn mx stp st ->
  within 0 100 (Position.x p) ->
  slider_inv mn mx stp (set_position p st).
Proof.
  intros (Hx & Hpr & Her & Hoff & Hem) Hp.
  split; [exact Hp|]. split; [exact Hpr|]. split; [exact Her|].
  split; [exact Hoff | exact Hem].
Qed.

Lemma onMouseDown_inv (st : DragState number) (_event : DomEvent number)
    (element : option (Element number)) :
  slider_inv mn mx stp st -> finite_event _event -> measured_ref element ->
  slider_inv mn mx stp (onMouseDown sliderParams st _event element).
Proof.
  intros Hst Hev Hel. unfold onMouseDown.
  destruct element as [element|]; auto.
  destruct (Hel element eq_refl) as [Mel Mparent].
  destruct (parentElement element) as [parent|]; auto.
  specialize (Mparent parent eq_refl).
  destruct (ignored _ _); auto.
  assert (Hst' : slider_inv mn mx stp
                   (if has_touches _event then log PreventDefault st else st)).
  { destruct (has_touches _event); auto. now apply log_inv. }
  destruct (pointer_of _event) as [event|] eqn:Ep; auto.
  destruct (Hev event Ep) as [Hcx Hcy].
  destruct Hst' as (Hx & _ & _ & _ & Hem).
  split; [exact Hx|]. split; [now intros pr [= <-]|].
  split; [now intros er [= <-]|]. split; [|exact Hem].
  cbn [relativeClickOffset centered sliderParams].
  destruct Mel as (Hl & Ht & _ & _).
  destruct (getBoundingClientRect element) as [l t w h].
  cbn [DOMRect.left DOMRect.top] in *.
  destruct event as [cx cy]; cbn [clientX clientY] in *.
  destruct l, t, cx, cy; try contradiction. split; exact I.
Qed.

Lemma onMouseMove_inv (st : DragState number) (_event : DomEvent number) :
  slider_inv mn mx stp st -> finite_event _event ->
  slider_inv mn mx stp (onMouseMove sliderParams st _event).
Proof.
  intros Hst Hev. unfold onMouseMove.
  destruct (isDragging st); auto.
  destruct (parentRect st) as [pr|] eqn:Epr; auto.
  destruct (elementRect st) as [er|] eqn:Eer; auto.
  destruct (pointer_of _event) as [event|] eqn:Ep; auto.
  apply log_inv; [|exact I]. apply set_position_inv; [exact Hst|].
  destruct Hst as (_ & Hpr & Her & Hoff & _).
  apply percentOf_x_within; auto; discriminate.
Qed.

Lemma flush_watch_inv (props : SliderProps.t number) (oldX : number)
    (st : DragState number) :
  slider_inv mn mx stp st -> has_range mn mx stp props ->
  slider_inv mn mx stp (flush_watch props oldX st).
Proof.
  intros Hst Hprops. unfold flush_watch.
  destruct (Object_is _ _); auto.
  unfold watch_position_x.
  destruct (SliderProps.disabled props); auto.
  destruct (strict_ne _ _); auto.
  apply log_inv; [exact Hst|].
  destruct Hst as (Hx & _).
  destruct (Position.x (position st)) as [| | |q]; try contradiction.
  now apply valueOfPercentage_in_range_on_grid.
Qed.

Lemma handleTrackClick_sync_inv (props : SliderProps.t number)
    (st : DragState number) (_event : DomEvent number)
    (trackRef thumbRef : option (Element number)) :
  slider_inv mn mx stp st -> has_range mn mx stp props ->
  finite_event _event -> measured_ref trackRef -> measured_ref thumbRef ->
  slider_inv mn mx stp
    (fst (handleTrackClick_sync props st _event trackRef thumbRef)).
Proof.
  intros Hst Hprops Hev Htr Hth. unfold handleTrackClick_sync.
  destruct (SliderProps.disabled props); auto.
  destruct trackRef as [track|]; auto.
  destruct thumbRef as [thumb|]; auto.
  destruct (pointer_of _event) as [event|] eqn:Ep; auto.
  cbn [fst].
  pose proof (@clickPercentage_within (getBoundingClientRect track)
                (getBoundingClientRect thumb) event
                (proj1 (Htr track eq_refl)) (proj1 (Hth thumb eq_refl))
                (Hev event Ep)) as Hp.
  assert (Hst' : slider_inv mn mx stp
            (set_position
               (Position.mk
                  (clickPercentage (getBoundingClientRect track)
                     (getBoundingClientRect thumb) event) (lit 0)) st))
    by now apply set_position_inv.
  destruct (strict_ne _ _); auto.
  apply log_inv; [exact Hst'|].
  destruct (clickPercentage _ _ _) as [| | |q]; try contradiction.
  now apply clickValue_in_range_on_grid.
Qed.

Lemma step_inv (props props' : SliderProps.t number) (st : DragState number)
    (ev : SliderEvent number) :
  slider_inv mn mx stp st ->
  has_range mn mx stp props -> has_range mn mx stp props' ->
  browser_event ev ->
  slider_inv mn mx stp (step props props' st ev).
Proof.
  intros Hst Hp Hp' Hev.
  destruct ev as [e el|e|t|e tr th th']; cbn [step browser_event] in *.
  - destruct Hev as [He Hel].
    apply flush_watch_inv; auto. now apply onMouseDown_inv.
  - apply flush_watch_inv; auto. unfold dispatchMove.
    destruct (if has_touches e then _ else _); auto.
    now apply onMouseMove_inv.
  - apply flush_watch_inv; auto. unfold dispatchRelease.
    destruct (if t then _ else _); auto.
  - destruct Hev as (He & Htr & Hth & Hth'). unfold handleTrackClick.
    pose proof (handleTrackClick_sync_inv Hst Hp He Htr Hth) as Hs.
    destruct (handleTrackClick_sync props st e tr th) as [st1 aw].
    cbn [fst] in Hs. destruct aw.
    + apply onMouseDown_inv; auto. now apply flush_watch_inv.
    + now apply flush_watch_inv.
Qed.

Lemma run_inv (turns : list (Turn number)) (st : DragState number) :
  slider_inv mn mx stp st ->
  Forall (browser_turn mn mx stp) turns ->
  slider_inv mn mx stp (run st turns).
Proof.
  intros Hst Hall. revert st Hst.
  induction Hall as [|t turns (Hb & Ha & He) _ IH]; intros st Hst;
    cbn [run]; auto.
  apply IH. now apply step_inv.
Qed.

Lemma useDraggable_inv : slider_inv mn mx stp (useDraggable sliderParams).
Proof.
  repeat split; cbn; try discriminate; constructor.
Qed.

End SliderInvariant.

(** C2, as stated, fails: with [min = 5], [max = 100] and [step = 10], a
    drag to the middle of the track emits 50, and [50 - 5] is no multiple
    of 10. *)
Lemma C2_counterexample :
  let props : SliderProps.t number := props_of 0 5 100 10 false in
  5 <= 100 /\
  emitted (effects (run (useDraggable sliderParams) (dragToMiddle props)))
  = [Fin 50] /\
  ~ on_grid_from_min 5 100 10 (Fin 50).
Proof.
  cbv zeta. split; [discriminate|]. split; [reflexivity|].
  intros [_ Hgrid]. destruct (Hgrid eq_refl) as [k Hk].
  unfold Qeq in Hk; cbn in Hk. lia.
Qed.

(** The same in double precision. *)
Example C2_counterexample_binary64 :
  let props : SliderProps.t binary64 := props_of 0 5 100 10 false in
  emitted (effects (run (useDraggable sliderParams) (dragToMiddle props)))
  = [lit 50].
Proof. vm_compute. reflexivity. Qed.

(** The clamp takes a value off the grid as well: with [step = 40] the
    right end of the track gives 120, cut to 100. *)
Example clamp_leaves_grid :
  valueOfPercentage (props_of 0 0 100 40 false) (Fin 100) = Fin 100 /\
  ~ multiple_of 40 100.
Proof.
  split; [reflexivity|]. intros [k Hk]. unfold Qeq in Hk; cbn in Hk. lia.
Qed.

(** In exact arithmetic, where no difference overflows, [NaN] is never
    emitted: in every run of the slider over measured elements and
    finite pointers, with finite [min <= max] and a finite [step], each
    value emitted, by the watcher of the drag or by a press on the track,
    is within [min, max]; and when [step > 0] it is an integer multiple of
    [step], counted from zero, or it is [min] or [max]. *)
Lemma emitted_values_in_range_exact :
  forall (min max step : Q) (turns : list (Turn number)),
    min <= max ->
    Forall (browser_turn min max step) turns ->
    Forall (in_range_on_grid min max step)
      (emitted (effects (run (useDraggable sliderParams) turns))).
Proof.
  intros mn mx stp turns Hle Hturns.
  apply (run_inv Hle (useDraggable_inv mn mx stp) Hturns).
Qed.

(** Discharges [browser_turn] on the elements and events of the page. *)
Ltac browser_turns :=
  repeat match goal with
  | |- Forall _ _ => constructor
  | |- browser_turn _ _ _ _ => unfold browser_turn, has_range
  | |- _ /\ _ => split
  | |- finite_event _ => intros ? [= <-]
  | |- measured_ref _ => intros ? [= <-]
  | |- forall parent, _ = Some parent -> _ => intros ? [= <-]
  | |- measured _ => unfold measured
  | |- _ = _ => reflexivity
  | |- finite _ => exact I
  | |- nonneg _ => cbn; discriminate
  | |- browser_event _ => cbn [browser_event event]
  | |- finite_pointer _ => unfold finite_pointer
  | |- True => exact I
  end.

Example emitted_values_in_range_exact_on_page :
  Forall (in_range_on_grid 5 100 10)
    (emitted (effects (run (useDraggable sliderParams)
                         (dragToMiddle (props_of 0 5 100 10 false))))).
Proof.
  apply emitted_values_in_range_exact.
  - discriminate.
  - unfold dragToMiddle. browser_turns.
Qed.

(* ----------------------------------------------------------------- *)
(** *** Emitted values in every number model *)

(** A positive number is truthy, in both models. *)
#[export] Instance number_JSNumberTruthy : JSNumberTruthy number.
Proof.
  split. intros [| | |q]; cbn; try discriminate; try reflexivity.
  intros Hgt. apply num_gt_Fin in Hgt.
  apply Bool.negb_true_iff, Bool.not_true_is_false.
  intros E. apply Qeq_bool_iff in E. rewrite E in Hgt.
  unfold inject_Z in Hgt. lra.
Qed.

#[export] Instance binary64_JSNumberTruthy : JSNumberTruthy binary64.
Proof.
  split. intros [s|s| |s m e]; cbn; try reflexivity; intros E.
  - discriminate E.
  - discriminate E.
Qed.

(** The clamp in exact arithmetic. *)
Lemma num_compare_refl (a : number) : a <> NaN -> num_compare a a = Some Eq.
Proof.
  destruct a as [| | |q]; try reflexivity; [contradiction|].
  intros _. apply num_compare_Fin_Eq. reflexivity.
Qed.

Lemma num_compare_None (a b : number) :
  num_compare a b = None <-> a = NaN \/ b = NaN.
Proof.
  destruct a, b; cbn; split; try discriminate; auto;
    intros [E | E]; discriminate E.
Qed.

Lemma num_compare_Gt_Lt (a b : number) :
  num_compare a b = Some Gt -> num_compare b a = Some Lt.
Proof.
  destruct a as [| | |p], b as [| | |q]; cbn; try discriminate; auto.
  intros E. apply num_compare_Fin_Gt in E. now apply num_compare_Fin_Lt.
Qed.

Lemma num_is_NaN (a : number) : is_NaN a = true <-> a = NaN.
Proof.
  unfold is_NaN. cbn. unfold num_strict_ne.
  destruct a as [| | |q]; cbn; split; try discriminate; auto.
  rewrite (proj1 (Qeq_alt q q) (Qeq_refl q)). discriminate.
Qed.

Lemma num_leq (a b : number) :
  leq a b = true <->
  num_compare a b = Some Lt \/ num_compare a b = Some Eq.
Proof.
  unfold leq. rewrite !Bool.andb_true_iff, !Bool.negb_true_iff.
  rewrite <- !Bool.not_true_iff_false, !num_is_NaN.
  cbn [gt number_JSNumber]. unfold num_gt.
  destruct (num_compare a b) as [[]|] eqn:E; split; intros Hx;
    try (destruct Hx as [Hx | Hx]; discriminate Hx);
    try (destruct Hx as [[_ _] Hx]; now contradiction Hx);
    auto.
  - repeat split; try discriminate; intros ->;
      [rewrite (proj2 (num_compare_None _ _)) in E by auto
      | rewrite (proj2 (num_compare_None _ _)) in E by auto]; discriminate E.
  - repeat split; try discriminate; intros ->;
      [rewrite (proj2 (num_compare_None _ _)) in E by auto
      | rewrite (proj2 (num_compare_None _ _)) in E by auto]; discriminate E.
  - destruct Hx as [[Ha Hb] _]. apply num_compare_None in E. tauto.
Qed.

#[export] Instance number_JSNumberClamp : JSNumberClamp number.
Proof.
  split.
  - intros lo hi x c. subst c. cbn [Math_max Math_min number_JSNumber].
    unfold num_max, num_min.
    destruct (num_compare hi x) as [[]|];
      match goal with
      | |- context [num_compare lo ?m] => destruct (num_compare lo m) as [[]|]
      end; auto.
  - intros lo hi x Hle c. subst c. cbn [Math_max Math_min number_JSNumber].
    apply num_leq in Hle.
    assert (Hlo : lo <> NaN).
    { intros ->. destruct Hle as [E | E]; discriminate E. }
    assert (Hhi : hi <> NaN).
    { intros ->. destruct lo; destruct Hle as [E | E]; discriminate E. }
    pose proof (num_compare_refl Hlo) as Rlo.
    pose proof (num_compare_refl Hhi) as Rhi.
    unfold num_max, num_min.
    destruct (num_compare hi x) as [[]|] eqn:E1.
    + destruct (num_compare lo hi) as [[]|] eqn:E2;
        try (destruct Hle as [E | E]; discriminate E);
        right; rewrite !num_leq; auto.
    + destruct (num_compare lo hi) as [[]|] eqn:E2;
        try (destruct Hle as [E | E]; discriminate E);
        right; rewrite !num_leq; auto.
    + apply num_compare_Gt_Lt in E1.
      destruct (num_compare lo x) as [[]|] eqn:E2;
        [right | right | right | left; reflexivity];
        rewrite !num_leq; auto.
    + left. now destruct lo.
Qed.

(** The same for the doubles. *)
Lemma SFcompare_antisym (a b : binary64) :
  SFcompare b a
  = match SFcompare a b with Some c => Some (CompOpp c) | None => None end.
Proof.
  destruct a as [s|s| |s m e], b as [t|t| |t n f]; cbn;
    try reflexivity; try (now destruct s); try (now destruct t);
    try (now destruct s, t).
  destruct s, t; try reflexivity;
    rewrite (Z.compare_antisym f e);
    destruct (f ?= e)%Z; cbn [CompOpp]; try reflexivity;
    rewrite (Pos.compare_cont_antisym m n Eq); reflexivity.
Qed.

Lemma SFcompare_refl (a : binary64) :
  a <> S754_nan -> SFcompare a a = Some Eq.
Proof.
  destruct a as [s|s| |s m e]; cbn; intros Ha;
    try reflexivity; try (now destruct s); try contradiction.
  rewrite Z.compare_refl, Pos.compare_cont_refl. now destruct s.
Qed.

Lemma SFcompare_None (a b : binary64) :
  SFcompare a b = None <-> a = S754_nan \/ b = S754_nan.
Proof.
  destruct a as [s|s| |s m e], b as [t|t| |t n f]; cbn; split;
    try discriminate; auto; try (intros [E | E]; discriminate E).
Qed.

Lemma b64_is_NaN (a : binary64) : is_NaN a = true <-> a = S754_nan.
Proof.
  unfold is_NaN. cbn [strict_ne binary64_JSNumber].
  unfold b64_strict_ne, SFeqb.
  destruct a as [s|s| |s m e]; try (split; reflexivity);
    (split; [intros E | intros E; discriminate E]);
    rewrite SFcompare_refl in E by discriminate; discriminate E.
Qed.

Lemma b64_leq (a b : binary64) :
  leq a b = true <->
  SFcompare a b = Some Lt \/ SFcompare a b = Some Eq.
Proof.
  unfold leq. rewrite !Bool.andb_true_iff, !Bool.negb_true_iff.
  rewrite <- !Bool.not_true_iff_false, !b64_is_NaN.
  cbn [gt binary64_JSNumber]. unfold b64_gt, SFltb.
  rewrite (SFcompare_antisym a b).
  destruct (SFcompare a b) as [[]|] eqn:E; cbn; split; intros Hx;
    try (destruct Hx as [Hx | Hx]; discriminate Hx);
    try (destruct Hx as [[_ _] Hx]; now contradiction Hx);
    auto.
  - repeat split; try discriminate; intros ->;
      rewrite (proj2 (SFcompare_None _ _)) in E by auto; discriminate E.
  - repeat split; try discriminate; intros ->;
      rewrite (proj2 (SFcompare_None _ _)) in E by auto; discriminate E.
  - destruct Hx as [[Ha Hb] _]. apply SFcompare_None in E. tauto.
Qed.

Lemma sf_same_refl (a : binary64) : sf_same a a.
Proof. intros y. split; reflexivity. Qed.

Lemma sf_same_zero (s t : bool) : sf_same (S754_zero s) (S754_zero t).
Proof. intros [u|u| |u m e]; split; reflexivity. Qed.

Lemma b64_min_spec (a b : binary64) :
  match SFcompare a b with
  | None => b64_min a b = S754_nan
  | Some Gt => b64_min a b = b
  | Some _ => (b64_min a b = a \/ b64_min a b = b) /\ sf_same (b64_min a b) a
  end.
Proof.
  unfold b64_min. destruct (SFcompare a b) as [[]|] eqn:E; auto.
  - destruct a as [s|s| |s m e], b as [t|t| |t n f];
      try (split; [now left | apply sf_same_refl]).
    split; [|apply sf_same_zero].
    destruct s, t; cbn; auto.
  - split; [now left | apply sf_same_refl].
Qed.

Lemma b64_max_spec (a b : binary64) :
  match SFcompare a b with
  | None => b64_max a b = S754_nan
  | Some Lt => b64_max a b = b
  | Some _ => (b64_max a b = a \/ b64_max a b = b) /\ sf_same (b64_max a b) a
  end.
Proof.
  unfold b64_max. destruct (SFcompare a b) as [[]|] eqn:E; auto.
  - destruct a as [s|s| |s m e], b as [t|t| |t n f];
      try (split; [now left | apply sf_same_refl]).
    split; [|apply sf_same_zero].
    destruct s, t; cbn; auto.
  - split; [now left | apply sf_same_refl].
Qed.

Lemma b64_min_cases (a b : binary64) :
  b64_min a b = S754_nan \/ b64_min a b = a \/ b64_min a b = b.
Proof.
  pose proof (b64_min_spec a b) as Hm.
  destruct (SFcompare a b) as [[]|]; auto; destruct Hm as [[E | E] _]; auto.
Qed.

Lemma b64_max_cases (a b : binary64) :
  b64_max a b = S754_nan \/ b64_max a b = a \/ b64_max a b = b.
Proof.
  pose proof (b64_max_spec a b) as Hm.
  destruct (SFcompare a b) as [[]|]; auto; destruct Hm as [[E | E] _]; auto.
Qed.

#[export] Instance binary64_JSNumberClamp : JSNumberClamp binary64.
Proof.
  split.
  - intros lo hi x c. subst c. cbn [Math_max Math_min binary64_JSNumber].
    destruct (b64_max_cases lo (b64_min hi x)) as [-> | [-> | ->]];
      [left; reflexivity | auto |].
    destruct (b64_min_cases hi x) as [-> | [-> | ->]];
      [left; reflexivity | auto | auto].
  - intros lo hi x Hle c. subst c. cbn [Math_max Math_min binary64_JSNumber].
    apply b64_leq in Hle.
    assert (Hlo : lo <> S754_nan).
    { intros ->. destruct Hle as [E | E]; discriminate E. }
    pose proof (SFcompare_refl Hlo) as Rlo.
    pose proof (b64_min_spec hi x) as Hm.
    pose proof (b64_max_spec lo (b64_min hi x)) as Hc.
    set (m := b64_min hi x) in *. set (c := b64_max lo m) in *.
    assert (Hmhi : m = S754_nan \/
                   SFcompare m hi = Some Lt \/ SFcompare m hi = Some Eq).
    { destruct (SFcompare hi x) as [[]|] eqn:E1.
      - destruct Hm as [_ Hm]. right. right.
        rewrite (proj1 (Hm hi)). apply SFcompare_refl.
        intros ->. destruct lo; destruct Hle as [E | E]; discriminate E.
      - destruct Hm as [_ Hm]. right. right.
        rewrite (proj1 (Hm hi)). apply SFcompare_refl.
        intros ->. destruct lo; destruct Hle as [E | E]; discriminate E.
      - right. left. rewrite Hm, (SFcompare_antisym hi x), E1. reflexivity.
      - now left. }
    destruct (SFcompare lo m) as [[]|] eqn:E2.
    + destruct Hc as [_ Hc]. right. rewrite !b64_leq.
      rewrite (proj2 (Hc lo)), (proj1 (Hc hi)). auto.
    + right. rewrite !b64_leq. rewrite Hc.
      destruct Hmhi as [-> | Hmhi]; [|auto].
      destruct lo; discriminate E2.
    + destruct Hc as [_ Hc]. right. rewrite !b64_leq.
      rewrite (proj2 (Hc lo)), (proj1 (Hc hi)). auto.
    + left. rewrite Hc. reflexivity.
Qed.

Section ClampedRuns.

Context {N : Type} `{JSNumber N} {C : JSNumberClamp N} {T : JSNumberTruthy N}.
Variables mn mx stp : N.
Hypothesis mn_leq_mx : leq mn mx = true.

Local Open Scope js_scope.

Lemma clamp_on_grid (nv : N) :
  ((stp >? lit 0) = true -> exists y, nv = Math_round y * stp) ->
  clamped_on_grid mn mx stp (Math_max mn (Math_min mx nv)).
Proof.
  intros Hgrid. unfold clamped_on_grid.
  destruct (clamp_in_range mn mx nv mn_leq_mx) as [Hnan | [Hlo Hhi]];
    [now left|].
  right. split; [exact Hlo|]. split; [exact Hhi|]. intros Hstep.
  destruct (clamp_cases mn mx nv) as [Hnan | [E | [E | E]]]; auto.
  - unfold leq in Hlo. rewrite Hnan in Hlo.
    rewrite Bool.andb_false_r in Hlo. discriminate Hlo.
  - right. right. destruct (Hgrid Hstep) as (y & Hy). exists y.
    now rewrite E.
Qed.

Lemma valueOfPercentage_clamped (props : SliderProps.t N) (x : N) :
  range_is mn mx stp props ->
  clamped_on_grid mn mx stp (valueOfPercentage props x).
Proof.
  intros (Hmn & Hmx & Hstp). unfold valueOfPercentage.
  rewrite Hmn, Hmx, Hstp. apply clamp_on_grid.
  intros ->. eexists. reflexivity.
Qed.

Lemma clickValue_clamped (props : SliderProps.t N) (x : N) :
  range_is mn mx stp props ->
  clamped_on_grid mn mx stp (clickValue props x).
Proof.
  intros (Hmn & Hmx & Hstp). unfold clickValue.
  rewrite Hmn, Hmx, Hstp. apply clamp_on_grid.
  intros Hstep. rewrite Hstep, (gt_zero_truthy _ Hstep).
  eexists. reflexivity.
Qed.

Lemma flush_watch_clamped (props : SliderProps.t N) (oldX : N)
    (st : DragState N) :
  range_is mn mx stp props ->
  Forall (clamped_on_grid mn mx stp) (emitted (effects st)) ->
  Forall (clamped_on_grid mn mx stp)
    (emitted (effects (flush_watch props oldX st))).
Proof.
  intros Hrange Hst. unfold flush_watch.
  destruct (Object_is _ _); auto.
  unfold watch_position_x.
  destruct (SliderProps.disabled props); auto.
  destruct (strict_ne _ _); auto.
  cbn [effects log]. rewrite emitted_app. apply Forall_app. split; auto.
  constructor; [|constructor]. now apply valueOfPercentage_clamped.
Qed.

Lemma handleTrackClick_sync_clamped (props : SliderProps.t N)
    (st : DragState N) (_event : DomEvent N)
    (trackRef thumbRef : option (Element N)) :
  range_is mn mx stp props ->
  Forall (clamped_on_grid mn mx stp) (emitted (effects st)) ->
  Forall (clamped_on_grid mn mx stp)
    (emitted (effects
       (fst (handleTrackClick_sync props st _event trackRef thumbRef)))).
Proof.
  intros Hrange Hst. unfold handleTrackClick_sync.
  destruct (SliderProps.disabled props); auto.
  destruct trackRef; auto. destruct thumbRef; auto.
  destruct (pointer_of _event); auto.
  cbn [fst]. destruct (strict_ne _ _); auto.
  cbn [effects log set_position]. rewrite emitted_app.
  apply Forall_app. split; auto.
  constructor; [|constructor]. now apply clickValue_clamped.
Qed.

Lemma step_clamped (props props' : SliderProps.t N) (st : DragState N)
    (ev : SliderEvent N) :
  range_is mn mx stp props -> range_is mn mx stp props' ->
  Forall (clamped_on_grid mn mx stp) (emitted (effects st)) ->
  Forall (clamped_on_grid mn mx stp)
    (emitted (effects (step props props' st ev))).
Proof.
  intros Hp Hp' Hst.
  destruct ev as [e el|e|t|e tr th th']; cbn [step].
  - apply flush_watch_clamped; auto. now rewrite onMouseDown_emitted.
  - apply flush_watch_clamped; auto. now rewrite dispatchMove_emitted.
  - apply flush_watch_clamped; auto. now rewrite dispatchRelease_emitted.
  - unfold handleTrackClick.
    pose proof (@handleTrackClick_sync_clamped props st e tr th Hp Hst) as Hs.
    destruct (handleTrackClick_sync props st e tr th) as [st1 aw].
    cbn [fst] in Hs.
    assert (Hf := @flush_watch_clamped props' (Position.x (position st)) st1 Hp' Hs).
    destruct aw; auto. now rewrite onMouseDown_emitted.
Qed.

Lemma run_clamped (turns : list (Turn N)) (st : DragState N) :
  Forall (fun t => range_is mn mx stp (before t) /\
                   range_is mn mx stp (after t)) turns ->
  Forall (clamped_on_grid mn mx stp) (emitted (effects st)) ->
  Forall (clamped_on_grid mn mx stp) (emitted (effects (run st turns))).
Proof.
  intros Hall. revert st.
  induction Hall as [|t turns [Hb Ha] _ IH]; intros st Hst; cbn [run]; auto.
  apply IH. now apply step_clamped.
Qed.

End ClampedRuns.

(** C2, amended: in every run of the slider whose props keep [min],
    [max] and [step], with [min <= max], each value emitted, by the
    watcher of the drag or by a press on the track, is [NaN] or a number
    within [min, max]; and when [step > 0] a number emitted is [min], or
    [max], or [Math.round (y) * step] for some [y]: a multiple of [step]
    counted from zero, not from [min].  This holds in every model of the
    numbers in which the clamp returns [NaN] or a number between its
    bounds, and [a > 0] makes [a] truthy: in double precision, and in
    exact arithmetic. *)
Theorem C2_emitted_values_clamped :
  forall (N : Type) (JS : JSNumber N) (C : JSNumberClamp N)
         (T : JSNumberTruthy N) (min max step : N) (turns : list (Turn N)),
    leq min max = true ->
    Forall (fun t => range_is min max step (before t) /\
                     range_is min max step (after t)) turns ->
    Forall (clamped_on_grid min max step)
      (emitted (effects (run (useDraggable sliderParams) turns))).
Proof.
  intros N JS C T mn mx stp turns Hle Hturns.
  apply (run_clamped Hle); [exact Hturns | constructor].
Qed.

(** In double precision, on the page: the drag to the middle with
    [min = 5], [max = 100], [step = 10]. *)
Lemma C2_emitted_values_clamped_witness :
  Forall (clamped_on_grid (lit 5) (lit 100) (lit 10))
    (emitted (effects (run (N := binary64) (useDraggable sliderParams)
                         (dragToMiddle (props_of 0 5 100 10 false))))).
Proof.
  apply C2_emitted_values_clamped; try exact _.
  - reflexivity.
  - repeat constructor.
Defined.

(** [NaN] is emitted in double precision when [max - min] overflows:
    with [min = -1.5e308], [max = 1.5e308] and [step = 1], a press at
    the left end of the track asks for 0 percent of [Infinity]. *)
Example overflowing_range_emits_NaN :
  let props : SliderProps.t binary64 :=
    SliderProps.mk (lit 0) (b64_of_Z (- 15 * 10 ^ 307)) (b64_of_Z (15 * 10 ^ 307))
      (lit 1) false in
  leq (SliderProps.min props) (SliderProps.max props) = true /\
  emitted (effects (handleTrackClick props props (useDraggable sliderParams)
                      (mouse trackEl 0 12) (Some trackEl) (Some thumbEl)
                      (Some thumbEl)))
  = [S754_nan].
Proof. vm_compute. split; reflexivity. Qed.


(** The drag to the middle by touch, on the demo page: the touch-start has
    its default action cancelled, the move is broadcast, and 50 is
    emitted. *)
Example touch_drag_on_demo_page :
  effects
    (run (N := number) (useDraggable sliderParams)
       [ {| before := defaultProps;
            event := ThumbPress (touch thumbEl 10 12) (Some thumbEl);
            after := defaultProps |};
         {| before := defaultProps;
            event := DocumentMove (touch thumbEl 100 12);
            after := defaultProps |} ])
  = [PreventDefault; DispatchUpdate; Emit (Fin 50)].
Proof. reflexivity. Qed.

(* ================================================================= *)
(** ** Further properties of the engine *)

Section EngineRuns.

Context {N : Type} `{JSNumber N}.
Variable params : Params N.

Lemma onMouseDown_position (st : DragState N) (_event : DomEvent N)
    (element : option (Element N)) :
  position (onMouseDown params st _event element) = position st.
Proof.
  unfold onMouseDown.
  destruct element as [element|]; auto.
  destruct (parentElement element); auto.
  destruct (ignored _ _); auto.
  destruct (has_touches _event), (pointer_of _event); reflexivity.
Qed.

Lemma ignored_false_outside (_event : DomEvent N) :
  outside_ignored params _event -> ignored params _event = false.
Proof.
  unfold outside_ignored, ignored.
  destruct (ignore params) as [[sel | [a|]]|]; auto.
  - intros [-> | Hout]; [reflexivity|].
    destruct sel; [reflexivity|].
    destruct (closest _ _) eqn:E; [|reflexivity].
    exfalso. apply Hout, closest_inside. rewrite E. discriminate.
  - intros Hout. apply Bool.not_true_is_false. intros Hc.
    now apply Hout, contains_inside.
Qed.

Lemma onMouseDown_again (st : DragState N) (_event : DomEvent N)
    (element : option (Element N)) :
  has_touches _event = false ->
  onMouseDown params (onMouseDown params st _event element) _event element
  = onMouseDown params st _event element.
Proof.
  intros Hmouse. unfold onMouseDown. rewrite Hmouse.
  destruct element as [element|]; auto.
  destruct (parentElement element); auto.
  destruct (ignored _ _); auto.
  destruct (pointer_of _event); reflexivity.
Qed.

Lemma step_listeners_follow (st : DragState N) (e : EngineEvent N) :
  listeners st = (if isDragging st then all_listeners else no_listeners) ->
  listeners (engine_step params st e)
  = (if isDragging (engine_step params st e)
     then all_listeners else no_listeners).
Proof.
  intros Hst. destruct e as [ev el | ev | t]; cbn [engine_step].
  - unfold onMouseDown.
    destruct el as [el|]; auto. destruct (parentElement el); auto.
    destruct (ignored _ _); auto.
    destruct (has_touches ev), (pointer_of ev); auto.
  - unfold documentMove.
    destruct (if has_touches ev then _ else _); auto.
    unfold onMouseMove.
    destruct (isDragging st) eqn:Ed, (parentRect st), (elementRect st),
      (pointer_of ev); cbn [listeners isDragging log set_position];
      rewrite ?Ed; auto.
  - unfold dispatchRelease.
    destruct (if t then _ else _); auto.
Qed.

End EngineRuns.

(** X1: in every run of an engine, whatever its options and whatever is
    pressed, moved or released, the four listeners are on [document]
    while [isDragging] is true and off while it is false. *)
Theorem engine_listeners_follow_dragging :
  forall (N : Type) (JS : JSNumber N) (params : Params N)
         (evs : list (EngineEvent N)),
    let st := engine_run params (useDraggable params) evs in
    listeners st = if isDragging st then all_listeners else no_listeners.
Proof.
  intros N JS params evs. cbv zeta. unfold engine_run.
  assert (Hinit : listeners (useDraggable params)
                  = if isDragging (useDraggable params)
                    then all_listeners else no_listeners) by reflexivity.
  revert Hinit. generalize (useDraggable params).
  induction evs as [|e evs IH]; intros st Hst; cbn [fold_left]; auto.
  apply IH, step_listeners_follow, Hst.
Qed.

(** X2: the position changes only by a move that arrives during a drag:
    a press, a release, and a move while [isDragging] is false all leave
    [position] as it is. *)
Theorem position_changes_only_by_drag_moves :
  forall (N : Type) (JS : JSNumber N) (params : Params N)
         (st : DragState N) (e : EngineEvent N),
    (forall _event, e <> Move _event) \/ isDragging st = false ->
    position (engine_step params st e) = position st.
Proof.
  intros N JS params st e Hcase.
  destruct e as [ev el | ev | t]; cbn [engine_step].
  - apply onMouseDown_position.
  - destruct Hcase as [Hnot | Hidle]; [now contradiction (Hnot ev)|].
    unfold documentMove, onMouseMove. rewrite Hidle.
    now destruct (if has_touches ev then _ else _).
  - unfold dispatchRelease. now destruct (if t then _ else _).
Qed.

Lemma position_changes_only_by_drag_moves_witness :
  position (engine_step (N := number) sliderParams (useDraggable sliderParams)
              (Move (mouse thumbEl 100 12)))
  = Position.mk (Fin 0) (Fin 0).
Proof.
  exact (@position_changes_only_by_drag_moves number _ sliderParams
           (useDraggable sliderParams) (Move (mouse thumbEl 100 12))
           (or_intror eq_refl)).
Defined.

(** X3: once [onMouseUp] has run, moves no longer reach the engine: any
    number of them leaves the whole state as the release left it. *)
Theorem moves_after_release_do_nothing :
  forall (N : Type) (JS : JSNumber N) (params : Params N)
         (st : DragState N) (moves : list (DomEvent N)),
    engine_run params (onMouseUp st) (map Move moves) = onMouseUp st.
Proof.
  intros N JS params st moves. unfold engine_run.
  induction moves as [|ev moves IH]; cbn [map fold_left]; auto.
  replace (engine_step params (onMouseUp st) (Move ev)) with (onMouseUp st);
    [exact IH|].
  cbn [engine_step]. unfold documentMove.
  now destruct (has_touches ev).
Qed.

(** X4: a press outside the ignored region, on an element that has a
    parent, with a pointer, starts a drag: [isDragging] is true, the
    rectangles of the element and of its parent are captured, the
    listeners are on, the position is as before, and [preventDefault] has
    been called exactly when the event is a touch event. *)
Theorem press_outside_ignored_starts_drag :
  forall (N : Type) (JS : JSNumber N) (params : Params N) (st : DragState N)
         (_event : DomEvent N) (event : Pointer N) (element parent : Element N),
    parentElement element = Some parent ->
    pointer_of _event = Some event ->
    outside_ignored params _event ->
    let st' := onMouseDown params st _event (Some element) in
    isDragging st' = true /\
    elementRect st' = Some (getBoundingClientRect element) /\
    parentRect st' = Some (getBoundingClientRect parent) /\
    listeners st' = all_listeners /\
    position st' = position st /\
    effects st'
    = effects st ++ (if has_touches _event then [PreventDefault] else []).
Proof.
  intros N JS params st _event event element parent Hparent Hev Hout st'.
  subst st'. unfold onMouseDown.
  rewrite Hparent, (ignored_false_outside params _event Hout), Hev.
  destruct (has_touches _event); cbn; repeat split; auto.
  now rewrite app_nil_r.
Qed.

Lemma press_outside_ignored_starts_drag_witness :
  let st' := onMouseDown panelParams (useDraggable panelParams)
               (touch (N := number) panelEl 60 10) (Some panelEl) in
  isDragging st' = true /\
  elementRect st' = Some (rect 40 2 80 20) /\
  parentRect st' = Some (rect 0 0 200 24) /\
  listeners st' = all_listeners /\
  position st' = Position.mk (Fin 0) (Fin 0) /\
  effects st' = [PreventDefault].
Proof.
  assert (Hout : outside_ignored panelParams (touch (N := number) panelEl 60 10)).
  { right. intros Hin.
    inversion Hin as [e He | e p Hp Hin']; subst; [discriminate He|].
    injection Hp as <-.
    inversion Hin' as [e He | e p Hp _]; subst; discriminate. }
  exact (@press_outside_ignored_starts_drag number _ panelParams
           (useDraggable panelParams) (touch panelEl 60 10)
           {| clientX := Fin 60; clientY := Fin 10 |} panelEl trackEl
           eq_refl eq_refl Hout).
Defined.

(* ----------------------------------------------------------------- *)
(** *** The listeners on the event target *)

Section EventTarget.

Context {N : Type} `{JSNumber N}.

Lemma bindListeners_count (bound : list nat) (v : option (Element N)) (n : nat) :
  (count_occ Nat.eq_dec bound n
   <= count_occ Nat.eq_dec (bindListeners bound v) n)%nat.
Proof.
  destruct v as [el|]; cbn [bindListeners]; [|apply Nat.le_refl].
  rewrite count_occ_app. apply Nat.le_add_r.
Qed.

Lemma bindListeners_bound (bound : list nat) (el : Element N) :
  (1 <= count_occ Nat.eq_dec (bindListeners bound (Some el)) (node el))%nat.
Proof.
  cbn [bindListeners]. rewrite count_occ_app. cbn [count_occ].
  destruct (Nat.eq_dec (node el) (node el)); [lia | contradiction].
Qed.

Lemma rebind_count (changes : list (option (Element N))) (bound : list nat)
    (current : option (Element N)) (n : nat) :
  (count_occ Nat.eq_dec bound n
   <= count_occ Nat.eq_dec (rebind bound current changes) n)%nat.
Proof.
  revert bound current.
  induction changes as [|v changes IH]; intros bound current; cbn [rebind].
  - apply Nat.le_refl.
  - destruct (same_ref current v); [apply IH|].
    eapply Nat.le_trans; [apply bindListeners_count | apply IH].
Qed.

(** While the ref holds an element, that element carries a pair. *)
Lemma rebind_holds (changes : list (option (Element N))) (bound : list nat)
    (current : option (Element N)) (el : Element N) :
  (forall c, current = Some c ->
             (1 <= count_occ Nat.eq_dec bound (node c))%nat) ->
  In (Some el) changes ->
  (1 <= count_occ Nat.eq_dec (rebind bound current changes) (node el))%nat.
Proof.
  revert bound current.
  induction changes as [|v changes IH]; intros bound current Hcur Hin;
    [contradiction|].
  cbn [rebind]. destruct Hin as [-> | Hin].
  - destruct (same_ref current (Some el)) eqn:E.
    + destruct current as [c|]; [|discriminate E].
      cbn [same_ref] in E. apply Nat.eqb_eq in E. rewrite <- E.
      eapply Nat.le_trans; [apply (Hcur c eq_refl) | apply rebind_count].
    + eapply Nat.le_trans; [apply bindListeners_bound | apply rebind_count].
  - destruct (same_ref current v) eqn:E.
    + now apply IH.
    + apply IH; [|exact Hin].
      intros c ->. apply bindListeners_bound.
Qed.

End EventTarget.

(** X5: the listeners of the event target are never taken off.  Whatever
    values the [eventTarget] ref takes, every element it has held, at
    set-up or later, still carries a pair of press listeners at the end:
    a press on a former event target keeps calling [onMouseDown]. *)
Theorem event_target_listeners_are_kept :
  forall (N : Type) (initial : option (Element N))
         (changes : list (option (Element N))) (el : Element N),
    In (Some el) (initial :: changes) ->
    (1 <= count_occ Nat.eq_dec (eventTargetListeners initial changes)
            (node el))%nat.
Proof.
  intros N initial changes el [-> | Hin]; unfold eventTargetListeners.
  - eapply Nat.le_trans; [apply (bindListeners_bound [] el) | apply rebind_count].
  - apply rebind_holds; [|exact Hin].
    intros c ->. apply (bindListeners_bound [] c).
Qed.

Lemma event_target_listeners_are_kept_witness :
  (1 <= count_occ Nat.eq_dec
          (eventTargetListeners (N := number) None
             [Some thumbEl; Some trackEl; None])
          (node (thumbEl (N := number))))%nat.
Proof.
  apply event_target_listeners_are_kept. right. left. reflexivity.
Defined.

(** X6: an element that carries several pairs of listeners (the ref went
    away from it and came back) calls [onMouseDown] once per pair; for a
    mouse event the outcome is that of a single call. *)
Theorem repeated_mouse_press_is_one_press :
  forall (N : Type) (JS : JSNumber N) (params : Params N) (bound : list nat)
         (el : Element N) (st : DragState N) (_event : DomEvent N)
         (targetValue : option (Element N)),
    has_touches _event = false ->
    In (node el) bound ->
    pressOn params bound el st _event targetValue
    = onMouseDown params st _event targetValue.
Proof.
  intros N JS params bound el st _event targetValue Hmouse Hin.
  unfold pressOn.
  apply (count_occ_In Nat.eq_dec) in Hin.
  destruct (count_occ Nat.eq_dec bound (node el)) as [|k]; [lia|]. clear Hin.
  set (f := fun st => onMouseDown params st _event targetValue).
  induction k as [|k IH]; [reflexivity|].
  change (f (Nat.iter (S k) f st) = f st). rewrite IH.
  now apply onMouseDown_again.
Qed.

Lemma repeated_mouse_press_is_one_press_witness :
  pressOn (N := number) sliderParams
    (eventTargetListeners (Some thumbEl) [None; Some thumbEl]) thumbEl
    (useDraggable sliderParams) (mouse thumbEl 10 12) (Some thumbEl)
  = onMouseDown sliderParams (useDraggable sliderParams)
      (mouse thumbEl 10 12) (Some thumbEl).
Proof.
  apply repeated_mouse_press_is_one_press; [reflexivity|].
  right. left. reflexivity.
Defined.

(* ----------------------------------------------------------------- *)
(** *** Where a drag puts the element *)

(** Two numbers in lowest terms that are equal as rationals are the
    same. *)
Lemma Qred_eq (p q : Q) : p == q -> Qred p = Qred q.
Proof. apply Qred_complete. Qed.

(** The clamp does not decrease when its argument grows. *)
Lemma clamp_Fin_mono (lo hi v v' : Q) :
  v <= v' ->
  exists c c',
    num_max (Fin lo) (num_min (Fin hi) (Fin v)) = Fin c /\
    num_max (Fin lo) (num_min (Fin hi) (Fin v')) = Fin c' /\
    c <= c'.
Proof.
  intros Hv.
  destruct (num_min_Fin hi v) as (m & -> & Hm & Hm1 & Hm2).
  destruct (num_min_Fin hi v') as (m' & -> & Hm' & Hm1' & Hm2').
  destruct (num_max_Fin lo m) as (c & -> & Hc & Hc1 & Hc2).
  destruct (num_max_Fin lo m') as (c' & -> & Hc' & Hc1' & Hc2').
  exists c, c'. repeat split; auto.
  destruct Hc as [-> | ->], Hm as [-> | ->], Hm' as [Em | Em];
    rewrite Em in *; lra.
Qed.

Section DragGeometry.

Variable params : Params number.
Variables pl pt pw ph el et ew eh : Q.

Let parentRect_ : DOMRect.t number :=
  DOMRect.mk (Fin pl) (Fin pt) (Fin pw) (Fin ph).
Let elementRect_ : DOMRect.t number :=
  DOMRect.mk (Fin el) (Fin et) (Fin ew) (Fin eh).

(** The horizontal coordinate before and after the clamp, for a pointer
    at [cx] and a click offset [ox]. *)
Lemma percentOf_x_inside (ox oy cx cy : Q) :
  let lo := if centered params then ew / 2 else 0 in
  let hi := pw - (if centered params then ew / 2 else ew) in
  let travel := if useOffset params then pw - ew else pw in
  0 < travel ->
  lo <= cx - pl - ox <= hi ->
  exists q,
    Position.x (percentOf params parentRect_ elementRect_
                  (Position.mk (Fin ox) (Fin oy))
                  {| clientX := Fin cx; clientY := Fin cy |}) = Fin q /\
    q == (cx - pl - ox) / travel * 100.
Proof.
  cbv zeta. intros Htravel Hin.
  unfold percentOf, parentRect_, elementRect_;
    cbn [DOMRect.left DOMRect.top DOMRect.width DOMRect.height
         Position.x Position.y clientX clientY].
  js_number.
  assert (Hclamp : forall lo' hi',
             lo' == (if centered params then ew / 2 else 0) ->
             hi' == pw - (if centered params then ew / 2 else ew) ->
             exists c,
               num_max (Fin lo')
                 (num_min (Fin hi') (Fin (Qred (Qred (cx - pl) - ox)))) = Fin c
               /\ c == cx - pl - ox).
  { intros lo' hi' Elo Ehi.
    destruct (@clamp_Fin_id lo' hi' (Qred (Qred (cx - pl) - ox)))
      as (c & Hc & Ec).
    - rewrite !Qred_correct, Elo, Ehi. exact Hin.
    - exists c. split; [exact Hc|]. now rewrite Ec, !Qred_correct. }
  assert (Hpct : forall c d, c == cx - pl - ox -> d == (if useOffset params then pw - ew else pw) ->
             exists q, num_mul (num_div (Fin c) (Fin d)) (Fin (inject_Z 100)) = Fin q
                       /\ q == (cx - pl - ox) / (if useOffset params then pw - ew else pw) * 100).
  { intros c d Ec Ed.
    rewrite num_div_Fin by (rewrite Ed; lra).
    rewrite num_mul_Fin. eexists. split; [reflexivity|].
    rewrite !Qred_correct, Ec, Ed. reflexivity. }
  rewrite !num_sub_Fin.
  destruct (centered params) eqn:Ec, (useOffset params) eqn:Eo;
    rewrite ?num_half_Fin, ?num_sub_Fin.
  - destruct (Hclamp (Qred (ew / 2)) (Qred (pw - Qred (ew / 2))))
      as (c & -> & Hc); [now rewrite Qred_correct | now rewrite !Qred_correct|].
    replace (num_gt (Fin (Qred (pw - ew))) (Fin (inject_Z 0))) with true
      by (symmetry; apply num_gt_Fin; now rewrite Qred_correct).
    apply Hpct; [exact Hc | apply Qred_correct].
  - destruct (Hclamp (Qred (ew / 2)) (Qred (pw - Qred (ew / 2))))
      as (c & -> & Hc); [now rewrite Qred_correct | now rewrite !Qred_correct|].
    apply Hpct; [exact Hc | reflexivity].
  - destruct (Hclamp (inject_Z 0) (Qred (pw - ew)))
      as (c & -> & Hc); [reflexivity | now rewrite !Qred_correct|].
    replace (num_gt (Fin (Qred (pw - ew))) (Fin (inject_Z 0))) with true
      by (symmetry; apply num_gt_Fin; now rewrite Qred_correct).
    apply Hpct; [exact Hc | apply Qred_correct].
  - destruct (Hclamp (inject_Z 0) (Qred (pw - ew)))
      as (c & -> & Hc); [reflexivity | now rewrite !Qred_correct|].
    apply Hpct; [exact Hc | reflexivity].
Qed.

(** The same for the vertical coordinate, always taken of the parent's
    height. *)
Lemma percentOf_y_inside (ox oy cx cy : Q) :
  let lo := if centered params then eh / 2 else 0 in
  let hi := ph - (if centered params then eh / 2 else eh) in
  0 < ph ->
  lo <= cy - pt - oy <= hi ->
  exists q,
    Position.y (percentOf params parentRect_ elementRect_
                  (Position.mk (Fin ox) (Fin oy))
                  {| clientX := Fin cx; clientY := Fin cy |}) = Fin q /\
    q == (cy - pt - oy) / ph * 100.
Proof.
  cbv zeta. intros Hph Hin.
  unfold percentOf, parentRect_, elementRect_;
    cbn [DOMRect.left DOMRect.top DOMRect.width DOMRect.height
         Position.x Position.y clientX clientY].
  js_number. rewrite !num_sub_Fin.
  assert (Hclamp : forall lo' hi',
             lo' == (if centered params then eh / 2 else 0) ->
             hi' == ph - (if centered params then eh / 2 else eh) ->
             exists q,
               num_mul
                 (num_div
                    (num_max (Fin lo')
                       (num_min (Fin hi') (Fin (Qred (Qred (cy - pt) - oy)))))
                    (Fin ph)) (Fin (inject_Z 100)) = Fin q
               /\ q == (cy - pt - oy) / ph * 100).
  { intros lo' hi' Elo Ehi.
    destruct (@clamp_Fin_id lo' hi' (Qred (Qred (cy - pt) - oy)))
      as (c & -> & Ec).
    - rewrite !Qred_correct, Elo, Ehi. exact Hin.
    - rewrite num_div_Fin by lra. rewrite num_mul_Fin.
      eexists. split; [reflexivity|].
      now rewrite !Qred_correct, Ec, !Qred_correct. }
  destruct (centered params); rewrite ?num_half_Fin, ?num_sub_Fin.
  - apply Hclamp; now rewrite !Qred_correct.
  - apply Hclamp; [reflexivity | now rewrite Qred_correct].
Qed.

End DragGeometry.

(** X7: a drag moves the element by the displacement of the pointer.
    After a press at [(x0, y0)] on an element at [(el, et)] in a parent
    at [(pl, pt)], a move to [(x1, y1)] gives the coordinate
    [el - pl + c + (x1 - x0)], where [c] is half the width when
    [centered] and 0 otherwise, as long as it stays within the bounds of
    the clamp; in percent of the parent's width, or of the travel
    [pw - ew] in offset mode.  The same holds vertically, in percent of
    the parent's height.  A press without movement leaves the element
    where it is. *)
Theorem drag_follows_pointer :
  forall (params : Params number) (st0 : DragState number)
         (press move : DomEvent number) (element parent : Element number)
         (el et ew eh pl pt pw ph x0 y0 x1 y1 : Q),
    parentElement element = Some parent ->
    getBoundingClientRect element
    = DOMRect.mk (Fin el) (Fin et) (Fin ew) (Fin eh) ->
    getBoundingClientRect parent
    = DOMRect.mk (Fin pl) (Fin pt) (Fin pw) (Fin ph) ->
    pointer_of press = Some {| clientX := Fin x0; clientY := Fin y0 |} ->
    pointer_of move = Some {| clientX := Fin x1; clientY := Fin y1 |} ->
    outside_ignored params press ->
    let st := onMouseDown params st0 press (Some element) in
    let pos := position (onMouseMove params st move) in
    let travel := if useOffset params then pw - ew else pw in
    let x := el - pl + (if centered params then ew / 2 else 0) + (x1 - x0) in
    let y := et - pt + (if centered params then eh / 2 else 0) + (y1 - y0) in
    (0 < travel ->
     (if centered params then ew / 2 else 0) <= x
       <= pw - (if centered params then ew / 2 else ew) ->
     exists q, Position.x pos = Fin q /\ q == x / travel * 100) /\
    (0 < ph ->
     (if centered params then eh / 2 else 0) <= y
       <= ph - (if centered params then eh / 2 else eh) ->
     exists q, Position.y pos = Fin q /\ q == y / ph * 100).
Proof.
  intros params st0 press move element parent el et ew eh pl pt pw ph
    x0 y0 x1 y1 Hparent Her Hpr Hpress Hmove Hout st pos travel x y.
  destruct (onMouseDown_started params st0 press element Hparent Hpress
              (ignored_false_outside params press Hout))
    as (Hdrag & Hprect & Herect & Hoff).
  fold st in Hdrag, Hprect, Herect, Hoff.
  subst pos. unfold onMouseMove.
  rewrite Hdrag, Hprect, Herect, Hmove, Hoff, Her, Hpr.
  cbn [position log set_position DOMRect.left DOMRect.top DOMRect.width
       DOMRect.height clientX clientY].
  js_number. rewrite !num_sub_Fin.
  assert (Ex : forall ox, ox == x0 - el - (if centered params then ew / 2 else 0) ->
                 x1 - pl - ox == x).
  { intros ox ->. unfold x. ring. }
  assert (Ey : forall oy, oy == y0 - et - (if centered params then eh / 2 else 0) ->
                 y1 - pt - oy == y).
  { intros oy ->. unfold y. ring. }
  destruct (centered params) eqn:Ec;
    rewrite ?num_half_Fin, ?num_sub_Fin; split.
  - intros Ht Hx.
    destruct (@percentOf_x_inside params pl pt pw ph el et ew eh
                (Qred (Qred (x0 - el) - Qred (ew / 2)))
                (Qred (Qred (y0 - et) - Qred (eh / 2))) x1 y1)
      as (q & Hq & Eq); rewrite ?Ec; auto.
    + rewrite Ex by now rewrite !Qred_correct. exact Hx.
    + exists q. split; [exact Hq|].
      rewrite Eq, Ex by now rewrite !Qred_correct. reflexivity.
  - intros Ht Hy.
    destruct (@percentOf_y_inside params pl pt pw ph el et ew eh
                (Qred (Qred (x0 - el) - Qred (ew / 2)))
                (Qred (Qred (y0 - et) - Qred (eh / 2))) x1 y1)
      as (q & Hq & Eq); rewrite ?Ec; auto.
    + rewrite Ey by now rewrite !Qred_correct. exact Hy.
    + exists q. split; [exact Hq|].
      rewrite Eq, Ey by now rewrite !Qred_correct. reflexivity.
  - intros Ht Hx.
    destruct (@percentOf_x_inside params pl pt pw ph el et ew eh
                (Qred (Qred (x0 - el) - inject_Z 0))
                (Qred (Qred (y0 - et) - inject_Z 0)) x1 y1)
      as (q & Hq & Eq); rewrite ?Ec; auto.
    + rewrite Ex by now rewrite !Qred_correct. exact Hx.
    + exists q. split; [exact Hq|].
      rewrite Eq, Ex by now rewrite !Qred_correct. reflexivity.
  - intros Ht Hy.
    destruct (@percentOf_y_inside params pl pt pw ph el et ew eh
                (Qred (Qred (x0 - el) - inject_Z 0))
                (Qred (Qred (y0 - et) - inject_Z 0)) x1 y1)
      as (q & Hq & Eq); rewrite ?Ec; auto.
    + rewrite Ey by now rewrite !Qred_correct. exact Hy.
    + exists q. split; [exact Hq|].
      rewrite Eq, Ey by now rewrite !Qred_correct. reflexivity.
Qed.

Lemma drag_follows_pointer_witness :
  let st := onMouseDown sliderParams (useDraggable sliderParams)
              (mouse thumbEl 10 12) (Some thumbEl) in
  let pos := position (onMouseMove sliderParams st (mouse thumbEl 100 12)) in
  (exists q, Position.x pos = Fin q /\ q == 50) /\
  (exists q, Position.y pos = Fin q /\ q == 25 # 3).
Proof.
  destruct (@drag_follows_pointer sliderParams (useDraggable sliderParams)
              (mouse thumbEl 10 12) (mouse thumbEl 100 12) thumbEl trackEl
              0 2 20 20 0 0 200 24 10 12 100 12) as [Hx Hy];
    [reflexivity | reflexivity | reflexivity | reflexivity | reflexivity
    | exact I |].
  split.
  - destruct Hx as (q & Hq & Eq); [reflexivity | split; discriminate|].
    exists q. split; [exact Hq|]. rewrite Eq. reflexivity.
  - destruct Hy as (q & Hq & Eq); [reflexivity | split; discriminate|].
    exists q. split; [exact Hq|]. rewrite Eq. reflexivity.
Defined.

(** What the clamp returns below, between and above its bounds. *)
Lemma clamp_Fin_cases (lo hi v : Q) :
  exists c, num_max (Fin lo) (num_min (Fin hi) (Fin v)) = Fin c /\
            (v <= lo -> c == lo) /\
            (hi <= v -> lo <= hi -> c == hi) /\
            (lo <= v <= hi -> c == v).
Proof.
  destruct (num_min_Fin hi v) as (m & -> & Hm & Hm1 & Hm2).
  destruct (num_max_Fin lo m) as (c & -> & Hc & Hc1 & Hc2).
  exists c. split; [reflexivity|].
  repeat split; intros; destruct Hc as [-> | ->], Hm as [-> | ->]; lra.
Qed.

Lemma percent_full (c d : Q) :
  0 < d -> c == d ->
  num_mul (num_div (Fin c) (Fin d)) (Fin (inject_Z 100)) = Fin 100.
Proof.
  intros Hd Hc. rewrite num_div_Fin by lra.
  rewrite (@Qred_eq (c / d) 1) by (rewrite Hc; field; lra). reflexivity.
Qed.

Lemma percent_none (c d : Q) :
  0 < d -> c == 0 ->
  num_mul (num_div (Fin c) (Fin d)) (Fin (inject_Z 100)) = Fin 0.
Proof.
  intros Hd Hc. rewrite num_div_Fin by lra.
  rewrite (@Qred_eq (c / d) 0) by (rewrite Hc; field; lra). reflexivity.
Qed.

Lemma percent_mono (c c' d : Q) :
  0 < d -> c <= c' ->
  exists q q',
    num_mul (num_div (Fin c) (Fin d)) (Fin (inject_Z 100)) = Fin q /\
    num_mul (num_div (Fin c') (Fin d)) (Fin (inject_Z 100)) = Fin q' /\
    q <= q'.
Proof.
  intros Hd Hc. rewrite !num_div_Fin by lra. rewrite !num_mul_Fin.
  eexists. eexists. split; [reflexivity|]. split; [reflexivity|].
  rewrite !Qred_correct. unfold inject_Z.
  assert (c / d <= c' / d).
  { unfold Qdiv. apply Qmult_le_compat_r; [exact Hc|].
    apply Qinv_le_0_compat. lra. }
  lra.
Qed.

(** X8: in exact arithmetic (no rounding), in offset mode (and not
    centred) with some travel, a drag reaches both ends exactly: once
    the pointer has carried the element to the right end of the travel
    or beyond, [position.x] is 100; at the left end or before it, 0.  In
    double precision the differences are rounded, and an element carried
    exactly to the right end can stay one unit in the last place short
    of 100 ([offset_drag_short_of_100]). *)
Theorem offset_drag_reaches_both_ends :
  forall (params : Params number) (st0 : DragState number)
         (press move : DomEvent number) (element parent : Element number)
         (el et ew eh pl pt pw ph x0 y0 x1 y1 : Q),
    parentElement element = Some parent ->
    getBoundingClientRect element
    = DOMRect.mk (Fin el) (Fin et) (Fin ew) (Fin eh) ->
    getBoundingClientRect parent
    = DOMRect.mk (Fin pl) (Fin pt) (Fin pw) (Fin ph) ->
    pointer_of press = Some {| clientX := Fin x0; clientY := Fin y0 |} ->
    pointer_of move = Some {| clientX := Fin x1; clientY := Fin y1 |} ->
    outside_ignored params press ->
    centered params = false ->
    useOffset params = true ->
    0 < pw - ew ->
    let st := onMouseDown params st0 press (Some element) in
    let pos := position (onMouseMove params st move) in
    (pw - ew <= el - pl + (x1 - x0) -> Position.x pos = Fin 100) /\
    (el - pl + (x1 - x0) <= 0 -> Position.x pos = Fin 0).
Proof.
  intros params st0 press move element parent el et ew eh pl pt pw ph
    x0 y0 x1 y1 Hparent Her Hpr Hpress Hmove Hout Hc Ho Htravel st pos.
  destruct (onMouseDown_started params st0 press element Hparent Hpress
              (ignored_false_outside params press Hout))
    as (Hdrag & Hprect & Herect & Hoff).
  fold st in Hdrag, Hprect, Herect, Hoff.
  subst pos. unfold onMouseMove.
  rewrite Hdrag, Hprect, Herect, Hmove, Hoff, Her, Hpr.
  cbn [position log set_position]. unfold percentOf.
  rewrite Hc, Ho.
  cbn [DOMRect.left DOMRect.top DOMRect.width DOMRect.height
       Position.x Position.y clientX clientY].
  js_number. rewrite !num_sub_Fin.
  replace (num_gt (Fin (Qred (pw - ew))) (Fin (inject_Z 0))) with true
    by (symmetry; apply num_gt_Fin; now rewrite Qred_correct).
  destruct (clamp_Fin_cases (inject_Z 0) (Qred (pw - ew))
              (Qred (Qred (x1 - pl) - Qred (Qred (x0 - el) - inject_Z 0))))
    as (c & -> & Hlow & Hhigh & _).
  split; intros Hend.
  - apply percent_full; [now rewrite Qred_correct|].
    apply Hhigh; q_solve.
  - apply percent_none; [now rewrite Qred_correct|].
    apply Hlow; q_solve.
Qed.

Lemma offset_drag_reaches_both_ends_witness :
  let st := onMouseDown sliderParams (useDraggable sliderParams)
              (mouse thumbEl 10 12) (Some thumbEl) in
  Position.x (position (onMouseMove sliderParams st (mouse thumbEl 190 12)))
  = Fin 100 /\
  Position.x (position (onMouseMove sliderParams st (mouse thumbEl 10 12)))
  = Fin 0.
Proof.
  split.
  - edestruct (@offset_drag_reaches_both_ends sliderParams
                 (useDraggable sliderParams)
                 (mouse thumbEl 10 12) (mouse thumbEl 190 12) thumbEl trackEl
                 0 2 20 20 0 0 200 24 10 12 190 12) as [Hright _];
      [reflexivity | reflexivity | reflexivity | reflexivity | reflexivity
      | exact I | reflexivity | reflexivity | reflexivity |].
    apply Hright. discriminate.
  - edestruct (@offset_drag_reaches_both_ends sliderParams
                 (useDraggable sliderParams)
                 (mouse thumbEl 10 12) (mouse thumbEl 10 12) thumbEl trackEl
                 0 2 20 20 0 0 200 24 10 12 10 12) as [_ Hleft];
      [reflexivity | reflexivity | reflexivity | reflexivity | reflexivity
      | exact I | reflexivity | reflexivity | reflexivity |].
    apply Hleft. discriminate.
Defined.

(** In double precision: parent at 0.3 of width 200.3, element at 0.3 of
    width 20.1, pressed at 12.6 and carried by 180.2 to 192.8, which is
    the whole travel; [position.x] is [100 - 2^-46], that is
    99.99999999999999. *)
Example offset_drag_short_of_100 :
  let parent : Element binary64 :=
    mkElement 1 (has_class ".slider")
      (DOMRect.mk (b64_decimal 3 1) (lit 0) (b64_decimal 2003 1) (lit 24))
      None in
  let element :=
    mkElement 2 (has_class ".thumb")
      (DOMRect.mk (b64_decimal 3 1) (lit 2) (b64_decimal 201 1) (lit 20))
      (Some parent) in
  let press :=
    MouseEvent element {| clientX := b64_decimal 126 1; clientY := lit 12 |} in
  let move :=
    MouseEvent element {| clientX := b64_decimal 1928 1; clientY := lit 12 |} in
  Position.x
    (position
       (onMouseMove sliderParams
          (onMouseDown sliderParams (useDraggable sliderParams) press
             (Some element))
          move))
  = (lit 100 - lit 1 / lit (2 ^ 46))%js.
Proof. vm_compute. reflexivity. Qed.

(** X9: during a drag the horizontal position follows the pointer in the
    same direction: of two moves over measured rectangles, the one whose
    pointer is further right gives a [position.x] that is not smaller
    (outside offset mode the parent must have a positive width). *)
Theorem position_x_monotone :
  forall (params : Params number) (st : DragState number)
         (move move' : DomEvent number) (pr er : DOMRect.t number)
         (x1 y1 x1' y1' : Q),
    isDragging st = true ->
    parentRect st = Some pr ->
    elementRect st = Some er ->
    measured pr -> measured er ->
    finite_position (relativeClickOffset st) ->
    pointer_of move = Some {| clientX := Fin x1; clientY := Fin y1 |} ->
    pointer_of move' = Some {| clientX := Fin x1'; clientY := Fin y1' |} ->
    (useOffset params = false -> positive (DOMRect.width pr)) ->
    x1 <= x1' ->
    exists q q',
      Position.x (position (onMouseMove params st move)) = Fin q /\
      Position.x (position (onMouseMove params st move')) = Fin q' /\
      q <= q'.
Proof.
  intros params st move move' pr er x1 y1 x1' y1' Hdrag Hpr Her Mpr Mer
    Foff Hmove Hmove' Hpos Hle.
  unfold onMouseMove. rewrite Hdrag, Hpr, Her, Hmove, Hmove'.
  cbn [position log set_position].
  destruct pr as [pl pt pw ph], er as [el et ew eh].
  destruct (relativeClickOffset st) as [ox oy].
  unfold measured, finite_position, positive in *;
    cbn [DOMRect.left DOMRect.top DOMRect.width DOMRect.height
         Position.x Position.y] in *.
  destruct Mpr as (Hpl & _ & Hpw & _), Mer as (_ & _ & Hew & _),
    Foff as (Hox & _).
  destruct pl as [| | |pl]; try contradiction.
  destruct pw as [| | |pw]; try contradiction.
  destruct ew as [| | |ew]; try contradiction.
  destruct ox as [| | |ox]; try contradiction.
  unfold percentOf;
    cbn [DOMRect.left DOMRect.top DOMRect.width DOMRect.height
         Position.x Position.y clientX clientY].
  js_number. rewrite !num_sub_Fin.
  assert (Hv : Qred (Qred (x1 - pl) - ox) <= Qred (Qred (x1' - pl) - ox))
    by (rewrite !Qred_correct; lra).
  destruct (centered params), (useOffset params);
    rewrite ?num_half_Fin, ?num_sub_Fin;
    try (destruct (num_gt _ _) eqn:E;
         [apply num_gt_Fin in E; rewrite Qred_correct in E; unfold inject_Z in E
         | exists 0, 0; repeat split; apply Qle_refl]);
    try specialize (Hpos eq_refl);
    match goal with
    | |- context [num_max (Fin ?lo) (num_min (Fin ?hi) _)] =>
        destruct (clamp_Fin_mono lo hi Hv) as (c & c' & -> & -> & Hc)
    end;
    apply percent_mono; auto; rewrite ?Qred_correct; lra.
Qed.

Lemma position_x_monotone_witness :
  let st := onMouseDown sliderParams (useDraggable sliderParams)
              (mouse thumbEl 10 12) (Some thumbEl) in
  exists q q',
    Position.x (position (onMouseMove sliderParams st (mouse thumbEl 60 12)))
    = Fin q /\
    Position.x (position (onMouseMove sliderParams st (mouse thumbEl 100 12)))
    = Fin q' /\
    q <= q'.
Proof.
  apply (@position_x_monotone sliderParams _ _ _
           (rect 0 0 200 24) (rect 0 2 20 20) 60 12 100 12);
    try reflexivity; try discriminate;
    try (vm_compute; intuition discriminate).
Defined.

(* ================================================================= *)
(** ** Further properties of the slider *)

(** X10: click-to-jump and the drag turn a percentage into a value by the
    same rule.  The two copies of the formula differ in the test of the
    step ([step && step > 0] against [step > 0]); the tests agree on
    every number, so the values do, whatever the props and the
    percentage. *)
Theorem clickValue_is_valueOfPercentage :
  forall (N : Type) (JS : JSNumber N) (T : JSNumberTruthy N)
         (props : SliderProps.t N) (percentage : N),
    clickValue props percentage = valueOfPercentage props percentage.
Proof.
  intros N JS T props percentage. unfold clickValue, valueOfPercentage.
  destruct (gt (SliderProps.step props) (lit 0)) eqn:E.
  - now rewrite (gt_zero_truthy _ E).
  - now rewrite Bool.andb_false_r.
Qed.

Lemma clickValue_is_valueOfPercentage_witness :
  clickValue (props_of 0 5 100 10 false) (Fin 37)
  = valueOfPercentage (props_of 0 5 100 10 false) (Fin 37).
Proof.
  apply clickValue_is_valueOfPercentage. exact _.
Defined.

(** X11: [handleTrackClick] needs both refs and a pointer.  When the
    track ref or the thumb ref holds nothing, or the event is a touch
    event without a touch point, it stops before its [await]: the state
    of the engine is the one it was given, nothing is emitted and
    [onMouseDown] is not called. *)
Theorem track_press_without_refs_or_pointer :
  forall (N : Type) (JS : JSNumber N) (L : JSNumberLaws N)
         (props props' : SliderProps.t N) (st : DragState N)
         (_event : DomEvent N) (trackRef thumbRef thumbRef' : option (Element N)),
    trackRef = None \/ thumbRef = None \/ pointer_of _event = None ->
    handleTrackClick_sync props st _event trackRef thumbRef = (st, false) /\
    handleTrackClick props props' st _event trackRef thumbRef thumbRef' = st.
Proof.
  intros N JS L props props' st _event trackRef thumbRef thumbRef' Hcase.
  assert (Hs : handleTrackClick_sync props st _event trackRef thumbRef
               = (st, false)).
  { unfold handleTrackClick_sync.
    destruct (SliderProps.disabled props); [reflexivity|].
    destruct Hcase as [-> | [-> | Hev]].
    - reflexivity.
    - now destruct trackRef.
    - rewrite Hev. now destruct trackRef, thumbRef. }
  split; [exact Hs|].
  unfold handleTrackClick. rewrite Hs. apply flush_watch_unchanged.
Qed.

Lemma track_press_without_refs_or_pointer_witness :
  let st := useDraggable (N := number) sliderParams in
  let props := props_of 30 0 100 1 false in
  handleTrackClick_sync props st (TouchEvent trackEl [])
    (Some trackEl) (Some thumbEl) = (st, false) /\
  handleTrackClick props props st (TouchEvent trackEl [])
    (Some trackEl) (Some thumbEl) (Some thumbEl) = st.
Proof.
  apply track_press_without_refs_or_pointer; [exact _|].
  right. right. reflexivity.
Defined.

(** X12: a press on the track goes on as a drag.  When the slider is not
    disabled, both refs are set, the event has a pointer and the thumb
    still has a parent after the tick, [handleTrackClick] ends with
    [isDragging] true, the listeners on [document], the rectangles of the
    thumb and of its parent captured as they are after the tick, and the
    position at the percentage of the press with [y = 0]. *)
Theorem track_press_goes_on_as_drag :
  forall (N : Type) (JS : JSNumber N) (props props' : SliderProps.t N)
         (st : DragState N) (_event : DomEvent N) (event : Pointer N)
         (track thumb thumb' parent : Element N),
    SliderProps.disabled props = false ->
    pointer_of _event = Some event ->
    parentElement thumb' = Some parent ->
    let st' := handleTrackClick props props' st _event
                 (Some track) (Some thumb) (Some thumb') in
    isDragging st' = true /\
    listeners st' = all_listeners /\
    elementRect st' = Some (getBoundingClientRect thumb') /\
    parentRect st' = Some (getBoundingClientRect parent) /\
    position st'
    = Position.mk
        (clickPercentage (getBoundingClientRect track)
           (getBoundingClientRect thumb) event)
        (lit 0).
Proof.
  intros N JS props props' st _event event track thumb thumb' parent
    Hen Hev Hparent st'.
  subst st'. unfold handleTrackClick, handleTrackClick_sync.
  rewrite Hen, Hev.
  assert (Hflush : forall p o s, position (flush_watch p o s) = position s).
  { intros p o s. unfold flush_watch.
    destruct (Object_is _ _); auto. destruct (watch_position_x _ _); auto. }
  unfold onMouseDown. rewrite Hparent.
  cbn [ignored sliderParams ignore]. rewrite Hev.
  cbn [isDragging listeners elementRect parentRect position].
  repeat split.
  destruct (has_touches _event); cbn [position log]; rewrite Hflush;
    destruct (strict_ne _ _); reflexivity.
Qed.

Lemma track_press_goes_on_as_drag_witness :
  let st' := handleTrackClick (N := number) (props_of 0 0 100 1 false)
               (props_of 50 0 100 1 false) (useDraggable sliderParams)
               (mouse trackEl 100 12) (Some trackEl) (Some thumbEl)
               (Some thumbEl) in
  isDragging st' = true /\
  listeners st' = all_listeners /\
  elementRect st' = Some (getBoundingClientRect thumbEl) /\
  parentRect st' = Some (getBoundingClientRect trackEl) /\
  position st'
  = Position.mk
      (clickPercentage (getBoundingClientRect trackEl)
         (getBoundingClientRect thumbEl)
         {| clientX := Fin 100; clientY := Fin 12 |})
      (lit 0).
Proof.
  apply (@track_press_goes_on_as_drag number _ (props_of 0 0 100 1 false)
           (props_of 50 0 100 1 false) (useDraggable sliderParams)
           (mouse trackEl 100 12) {| clientX := Fin 100; clientY := Fin 12 |}
           trackEl thumbEl thumbEl trackEl); reflexivity.
Defined.

(* ----------------------------------------------------------------- *)
(** *** From a percentage to a value *)

Section Values.

Variables mn mx stp : Q.
Variable props : SliderProps.t number.
Hypothesis Hrange : has_range mn mx stp props.

(** The value before rounding and clamping, in lowest terms. *)
Let raw (p : Q) : Q := Qred (Qred (Qred (p / 100) * Qred (mx - mn)) + mn).

Lemma raw_correct (p : Q) : raw p == mn + p / 100 * (mx - mn).
Proof. unfold raw. rewrite !Qred_correct. ring. Qed.

Lemma valueOfPercentage_Fin (p : Q) :
  valueOfPercentage props (Fin p)
  = num_max (Fin mn)
      (num_min (Fin mx)
         (if num_gt (Fin stp) (Fin 0)
          then num_mul (num_round (num_div (Fin (raw p)) (Fin stp))) (Fin stp)
          else Fin (raw p))).
Proof.
  destruct Hrange as (Hmn & Hmx & Hstp).
  unfold valueOfPercentage. rewrite Hmn, Hmx, Hstp. js_number.
  now rewrite num_div_100, num_sub_Fin, num_mul_Fin, num_add_Fin.
Qed.

(** The nearest multiple of a positive step. *)
Lemma rounded_Fin (r : Q) :
  0 < stp ->
  num_mul (num_round (num_div (Fin r) (Fin stp))) (Fin stp)
  = Fin (Qred (inject_Z (Qfloor (Qred (r / stp) + (1 # 2))) * stp)).
Proof.
  intros Hs. rewrite num_div_Fin by lra. reflexivity.
Qed.

Lemma rounded_mono (r r' : Q) :
  0 < stp -> r <= r' ->
  Qred (inject_Z (Qfloor (Qred (r / stp) + (1 # 2))) * stp)
  <= Qred (inject_Z (Qfloor (Qred (r' / stp) + (1 # 2))) * stp).
Proof.
  intros Hs Hr. rewrite !Qred_correct.
  apply Qmult_le_compat_r; [|lra].
  rewrite <- Zle_Qle. apply Qfloor_resp_le.
  assert (r / stp <= r' / stp).
  { unfold Qdiv. apply Qmult_le_compat_r; [exact Hr|].
    apply Qinv_le_0_compat. lra. }
  lra.
Qed.

(** The nearest multiple is at most half a step away. *)
Lemma rounded_near (r : Q) :
  0 < stp ->
  r - stp / 2 <= Qred (inject_Z (Qfloor (Qred (r / stp) + (1 # 2))) * stp)
  <= r + stp / 2.
Proof.
  intros Hs.
  set (t := Qred (r / stp) + (1 # 2)).
  assert (Ew : Qred (inject_Z (Qfloor t) * stp) == inject_Z (Qfloor t) * stp)
    by apply Qred_correct.
  assert (Et : t * stp == r + stp / 2).
  { unfold t. rewrite Qred_correct. field. lra. }
  pose proof (Qfloor_le t) as Hlo.
  pose proof (Qlt_floor t) as Hhi.
  assert (Ek : inject_Z (Qfloor t + 1) == inject_Z (Qfloor t) + 1)
    by (rewrite inject_Z_plus; reflexivity).
  rewrite Ek in Hhi.
  assert (H1 : inject_Z (Qfloor t) * stp <= t * stp)
    by (apply Qmult_le_compat_r; lra).
  assert (H2 : t * stp <= (inject_Z (Qfloor t) + 1) * stp)
    by (apply Qmult_le_compat_r; lra).
  assert (E2 : (inject_Z (Qfloor t) + 1) * stp
               == inject_Z (Qfloor t) * stp + stp) by ring.
  assert (E3 : stp / 2 == stp * (1 # 2)) by (field).
  rewrite Et in H1, H2. rewrite E2 in H2.
  split; rewrite Ew, E3; lra.
Qed.

End Values.

(** X13: the value grows with the percentage.  For finite [min <= max]
    and any finite step, a percentage further right never stands for a
    smaller value: rounding to the step and clamping keep the order. *)
Theorem valueOfPercentage_monotone :
  forall (min max step p p' : Q) (props : SliderProps.t number),
    has_range min max step props ->
    min <= max ->
    p <= p' ->
    exists v v',
      valueOfPercentage props (Fin p) = Fin v /\
      valueOfPercentage props (Fin p') = Fin v' /\
      v <= v'.
Proof.
  intros mn mx stp p p' props Hrange Hle Hp.
  rewrite !(valueOfPercentage_Fin Hrange).
  set (r := Qred (Qred (Qred (p / 100) * Qred (mx - mn)) + mn)).
  set (r' := Qred (Qred (Qred (p' / 100) * Qred (mx - mn)) + mn)).
  assert (Hr : r <= r').
  { unfold r, r'. rewrite !Qred_correct.
    assert (p / 100 * (mx - mn) <= p' / 100 * (mx - mn)).
    { apply Qmult_le_compat_r; [|lra].
      unfold Qdiv. apply Qmult_le_compat_r; [exact Hp | discriminate]. }
    lra. }
  destruct (num_gt (Fin stp) (Fin 0)) eqn:E.
  - apply num_gt_Fin in E. rewrite !(rounded_Fin _ E).
    destruct (clamp_Fin_mono mn mx (rounded_mono E Hr))
      as (c & c' & Hc & Hc' & Hcc).
    exists c, c'. auto.
  - destruct (clamp_Fin_mono mn mx Hr) as (c & c' & Hc & Hc' & Hcc).
    exists c, c'. auto.
Qed.

Lemma valueOfPercentage_monotone_witness :
  exists v v',
    valueOfPercentage (props_of 0 5 100 10 false) (Fin 44) = Fin v /\
    valueOfPercentage (props_of 0 5 100 10 false) (Fin 46) = Fin v' /\
    v <= v'.
Proof.
  apply (@valueOfPercentage_monotone 5 100 10 44 46).
  - repeat split.
  - discriminate.
  - discriminate.
Defined.

(** X14: with a positive step the value is the nearest one on the grid:
    for a percentage between 0 and 100 and finite [min <= max], the
    value is at most half a step away from the linear interpolation
    [min + p / 100 * (max - min)]. *)
Theorem value_within_half_a_step :
  forall (min max step p : Q) (props : SliderProps.t number),
    has_range min max step props ->
    min <= max ->
    0 < step ->
    0 <= p <= 100 ->
    exists v,
      valueOfPercentage props (Fin p) = Fin v /\
      min + p / 100 * (max - min) - step / 2 <= v
        <= min + p / 100 * (max - min) + step / 2.
Proof.
  intros mn mx stp p props Hrange Hle Hs Hp.
  rewrite (valueOfPercentage_Fin Hrange).
  replace (num_gt (Fin stp) (Fin 0)) with true
    by (symmetry; now apply num_gt_Fin).
  rewrite (rounded_Fin _ Hs).
  set (r := Qred (Qred (Qred (p / 100) * Qred (mx - mn)) + mn)).
  assert (Er : r == mn + p / 100 * (mx - mn))
    by (unfold r; rewrite !Qred_correct; ring).
  assert (Hin : mn <= r <= mx).
  { rewrite Er.
    assert (0 <= p / 100 * (mx - mn)).
    { apply Qmult_le_0_compat; [|lra].
      apply Qle_shift_div_l; [reflexivity | lra]. }
    assert (p / 100 * (mx - mn) <= 1 * (mx - mn)).
    { apply Qmult_le_compat_r; [|lra].
      apply Qle_shift_div_r; [reflexivity | lra]. }
    lra. }
  pose proof (rounded_near r Hs) as Hnear.
  set (w := Qred (inject_Z (Qfloor (Qred (r / stp) + (1 # 2))) * stp)) in *.
  destruct (clamp_Fin_cases mn mx w) as (c & -> & Hlow & Hhigh & Hmid).
  exists c. split; [reflexivity|]. rewrite <- Er.
  destruct (Qlt_le_dec w mn) as [Hw | Hw].
  - rewrite (Hlow (Qlt_le_weak _ _ Hw)). lra.
  - destruct (Qlt_le_dec mx w) as [Hw' | Hw'].
    + rewrite (Hhigh (Qlt_le_weak _ _ Hw') Hle). lra.
    + rewrite (Hmid (conj Hw Hw')). lra.
Qed.

Lemma value_within_half_a_step_witness :
  exists v,
    valueOfPercentage (props_of 0 5 100 10 false) (Fin 50) = Fin v /\
    5 + 50 / 100 * (100 - 5) - 10 / 2 <= v
      <= 5 + 50 / 100 * (100 - 5) + 10 / 2.
Proof.
  apply (@value_within_half_a_step 5 100 10 50).
  - repeat split.
  - discriminate.
  - reflexivity.
  - split; discriminate.
Defined.

(** X15: in exact arithmetic (no rounding, no overflow), the ends of the
    track stand for [min] and [max] when these lie on the grid: for
    finite [min <= max], and with [min] and [max] multiples of the step
    when the step is positive, 0 percent gives [min] and 100 percent
    gives [max].  In double precision [min + (max - min)] need not be
    [max] ([right_end_short_of_max]). *)
Theorem track_ends_give_min_and_max :
  forall (min max step : Q) (props : SliderProps.t number),
    has_range min max step props ->
    min <= max ->
    (0 < step -> multiple_of step min /\ multiple_of step max) ->
    exists a b,
      valueOfPercentage props (Fin 0) = Fin a /\ a == min /\
      valueOfPercentage props (Fin 100) = Fin b /\ b == max.
Proof.
  intros mn mx stp props Hrange Hle Hgrid.
  rewrite !(valueOfPercentage_Fin Hrange).
  set (r0 := Qred (Qred (Qred (0 / 100) * Qred (mx - mn)) + mn)).
  set (r1 := Qred (Qred (Qred (100 / 100) * Qred (mx - mn)) + mn)).
  assert (E0 : r0 == mn) by (unfold r0; rewrite !Qred_correct; field).
  assert (E1 : r1 == mx) by (unfold r1; rewrite !Qred_correct; field).
  destruct (num_gt (Fin stp) (Fin 0)) eqn:E.
  - apply num_gt_Fin in E. destruct (Hgrid E) as [Gmn Gmx].
    destruct (round_multiple E Gmn E0) as (w0 & -> & Hw0).
    destruct (round_multiple E Gmx E1) as (w1 & -> & Hw1).
    destruct (@clamp_Fin_id mn mx w0) as (a & -> & Ha); [lra|].
    destruct (@clamp_Fin_id mn mx w1) as (b & -> & Hb); [lra|].
    exists a, b. repeat split; lra.
  - destruct (@clamp_Fin_id mn mx r0) as (a & -> & Ha); [lra|].
    destruct (@clamp_Fin_id mn mx r1) as (b & -> & Hb); [lra|].
    exists a, b. repeat split; lra.
Qed.

Lemma track_ends_give_min_and_max_witness :
  exists a b,
    valueOfPercentage (props_of 0 20 100 10 false) (Fin 0) = Fin a /\
    a == 20 /\
    valueOfPercentage (props_of 0 20 100 10 false) (Fin 100) = Fin b /\
    b == 100.
Proof.
  apply (@track_ends_give_min_and_max 20 100 10).
  - repeat split.
  - discriminate.
  - intros _. split; [exists 2%Z | exists 10%Z]; reflexivity.
Defined.

(** In double precision, with [min = 0.2], [max = 0.9] and no step, 100
    percent gives 0.8999999999999999, the double below [max]. *)
Example right_end_short_of_max :
  let props : SliderProps.t binary64 :=
    SliderProps.mk (lit 0) (b64_decimal 2 1) (b64_decimal 9 1) (lit 0) false in
  valueOfPercentage props (lit 100) = b64_decimal 8999999999999999 16 /\
  gt (SliderProps.max props) (valueOfPercentage props (lit 100)) = true.
Proof. vm_compute. split; reflexivity. Qed.

(** Off the grid the left end is out of reach: with [min = 5] and
    [step = 10] the percentage 0 stands for 10. *)
Example min_off_grid_is_not_reached :
  valueOfPercentage (props_of 0 5 100 10 false) (Fin 0) = Fin 10.
Proof. reflexivity. Qed.

(** X16: no second notification for the same position, unless the value
    is [NaN].  When the watcher has emitted [v] for a percentage and the
    parent has adopted [v] as the model value, the watcher emits nothing
    for that percentage if [v] is a number, and emits [v] again if [v]
    is [NaN], since [NaN !== NaN].  This holds in every model of the
    numbers. *)
Theorem adopted_value_is_not_emitted_again :
  forall (N : Type) (JS : JSNumber N) (props : SliderProps.t N) (p v : N),
    watch_position_x props p = Some v ->
    watch_position_x (with_modelValue v props) p
    = if is_NaN v then Some v else None.
Proof.
  intros N JS props p v Hemit.
  unfold watch_position_x in *.
  change (valueOfPercentage (with_modelValue v props) p)
    with (valueOfPercentage props p).
  change (SliderProps.disabled (with_modelValue v props))
    with (SliderProps.disabled props).
  change (SliderProps.modelValue (with_modelValue v props)) with v.
  destruct (SliderProps.disabled props); [discriminate Hemit|].
  destruct (strict_ne (valueOfPercentage props p)
              (SliderProps.modelValue props)); [|discriminate Hemit].
  injection Hemit as ->. reflexivity.
Qed.

(** In double precision, on the page with [step = 10]: 44 percent gives
    40, and nothing once the model value is 40. *)
Lemma adopted_value_is_not_emitted_again_witness :
  watch_position_x (N := binary64)
    (with_modelValue (lit 40) (props_of 0 0 100 10 false)) (lit 44)
  = None.
Proof.
  exact (@adopted_value_is_not_emitted_again binary64 _
           (props_of 0 0 100 10 false) (lit 44) (lit 40) eq_refl).
Defined.

(** [NaN] is emitted again: with [min = -1.5e308], [max = 1.5e308] and
    [step = 1] in double precision, 0 percent gives [NaN] before and
    after the parent has adopted it. *)
Example adopted_NaN_is_emitted_again :
  let props : SliderProps.t binary64 :=
    SliderProps.mk (lit 0) (b64_of_Z (- 15 * 10 ^ 307))
      (b64_of_Z (15 * 10 ^ 307)) (lit 1) false in
  watch_position_x props (lit 0) = Some S754_nan /\
  watch_position_x (with_modelValue S754_nan props) (lit 0) = Some S754_nan.
Proof. vm_compute. split; reflexivity. Qed.

(* ----------------------------------------------------------------- *)
(** *** From a value to a percentage *)

(** X17: in exact arithmetic (no rounding), the thumb is drawn inside
    the track exactly when the model value is inside the range: for
    [min < max], [valueAsPercentage] is within [0,100] if and only if
    [min <= modelValue <= max]; a model value outside the range is not
    clamped.  In double precision a model value just above [max] can be
    rendered at exactly 100 ([model_value_just_above_max]). *)
Theorem valueAsPercentage_within_iff :
  forall (min max v : Q) (step : number) (disabled : bool),
    min < max ->
    let props := SliderProps.mk (Fin v) (Fin min) (Fin max) step disabled in
    within 0 100 (valueAsPercentage props) <-> min <= v <= max.
Proof.
  intros mn mx v step d Hlt props.
  assert (Hd : ~ Qred (mx - mn) == 0) by (rewrite Qred_correct; lra).
  unfold valueAsPercentage, props;
    cbn [SliderProps.modelValue SliderProps.min SliderProps.max].
  js_number. rewrite !num_sub_Fin, num_div_Fin by exact Hd.
  rewrite num_mul_Fin. unfold within. rewrite !Qred_correct.
  set (t := (v - mn) / (mx - mn)).
  assert (Et : t * (mx - mn) == v - mn) by (unfold t; field; lra).
  unfold inject_Z. split.
  - intros [H0 H1].
    assert (0 <= t * (mx - mn)) by (apply Qmult_le_0_compat; lra).
    assert (t * (mx - mn) <= 1 * (mx - mn))
      by (apply Qmult_le_compat_r; lra).
    lra.
  - intros [H0 H1].
    assert (0 <= t) by (unfold t; apply Qle_shift_div_l; lra).
    assert (t <= 1) by (unfold t; apply Qle_shift_div_r; lra).
    lra.
Qed.

Lemma valueAsPercentage_within_iff_witness :
  within 0 100
    (valueAsPercentage (SliderProps.mk (Fin 30) (Fin 0) (Fin 100) (Fin 1) false))
  <-> 0 <= 30 <= 100.
Proof.
  apply (@valueAsPercentage_within_iff 0 100 30 (Fin 1) false). reflexivity.
Defined.

(** In double precision, with [min = -0.2] and [max = 0.9], the model
    value 0.9000000000000001, the double above [max], is rendered at
    exactly 100 percent. *)
Example model_value_just_above_max :
  let props : SliderProps.t binary64 :=
    SliderProps.mk (b64_decimal 9000000000000001 16)
      (SFopp (b64_decimal 2 1)) (b64_decimal 9 1) (lit 1) false in
  gt (SliderProps.modelValue props) (SliderProps.max props) = true /\
  valueAsPercentage props = lit 100.
Proof. vm_compute. split; reflexivity. Qed.

(** A model value above [max] puts the thumb beyond the track. *)
Example model_value_beyond_max :
  valueAsPercentage (props_of 150 0 100 1 false) = Fin 150.
Proof. reflexivity. Qed.

(* ----------------------------------------------------------------- *)
(** *** A press on the track *)

Lemma clamp_Fin_cases' (lo hi v : Q) :
  exists c, num_max (Fin lo) (num_min (Fin v) (Fin hi)) = Fin c /\
            (v <= lo -> c == lo) /\
            (hi <= v -> lo <= hi -> c == hi) /\
            (lo <= v <= hi -> c == v).
Proof.
  destruct (num_min_Fin v hi) as (m & -> & Hm & Hm1 & Hm2).
  destruct (num_max_Fin lo m) as (c & -> & Hc & Hc1 & Hc2).
  exists c. split; [reflexivity|].
  repeat split; intros; destruct Hc as [-> | ->], Hm as [-> | ->]; lra.
Qed.

(** On numbers in lowest terms [Math.min] does not depend on the order of
    its arguments. *)
Lemma num_min_Qred_comm (a b : Q) :
  num_min (Fin (Qred a)) (Fin (Qred b)) = num_min (Fin (Qred b)) (Fin (Qred a)).
Proof.
  unfold num_min.
  destruct (num_compare (Fin (Qred a)) (Fin (Qred b))) as [[]|] eqn:E.
  - apply num_compare_Fin_Eq in E. rewrite !Qred_correct in E.
    rewrite (Qred_eq E).
    now rewrite (proj2 (num_compare_Fin_Eq (Qred b) (Qred b)) (Qeq_refl _)).
  - apply num_compare_Fin_Lt in E.
    now rewrite (proj2 (num_compare_Fin_Gt (Qred b) (Qred a)) E).
  - apply num_compare_Fin_Gt in E.
    now rewrite (proj2 (num_compare_Fin_Lt (Qred b) (Qred a)) E).
  - discriminate E.
Qed.

(** X18: the percentage of a press on the track at its limits, in exact
    arithmetic (no rounding).  When the track is no wider than the thumb
    the percentage is 0; otherwise it is 0 for a press within half a
    thumb of the left end of the track (or left of it) and 100 within
    half a thumb of the right end (or right of it).  In double precision
    a press exactly half a thumb from the right end can give one unit in
    the last place less than 100 ([click_short_of_100]). *)
Theorem click_percentage_at_the_limits :
  forall (tl tt tw th bl bt bw bh cx cy : Q),
    let trackRect := DOMRect.mk (Fin tl) (Fin tt) (Fin tw) (Fin th) in
    let thumbRect := DOMRect.mk (Fin bl) (Fin bt) (Fin bw) (Fin bh) in
    let event := {| clientX := Fin cx; clientY := Fin cy |} in
    (tw - bw <= 0 -> clickPercentage trackRect thumbRect event = Fin 0) /\
    (0 < tw - bw -> cx - tl <= bw / 2 ->
     clickPercentage trackRect thumbRect event = Fin 0) /\
    (0 < tw - bw -> tw - bw / 2 <= cx - tl ->
     clickPercentage trackRect thumbRect event = Fin 100).
Proof.
  intros tl tt tw th bl bt bw bh cx cy trackRect thumbRect event.
  unfold clickPercentage, trackRect, thumbRect, event;
    cbn [DOMRect.left DOMRect.top DOMRect.width DOMRect.height
         clientX clientY].
  js_number. rewrite num_half_Fin, !num_sub_Fin.
  destruct (clamp_Fin_cases' (inject_Z 0) (Qred (tw - bw))
              (Qred (Qred (cx - tl) - Qred (bw / 2))))
    as (c & -> & Hlow & Hhigh & _).
  repeat split.
  - intros Hnone.
    replace (num_gt (Fin (Qred (tw - bw))) (Fin (inject_Z 0))) with false;
      [reflexivity|].
    symmetry. apply num_gt_Fin_false. now rewrite Qred_correct.
  - intros Htravel Hleft.
    replace (num_gt (Fin (Qred (tw - bw))) (Fin (inject_Z 0))) with true
      by (symmetry; apply num_gt_Fin; now rewrite Qred_correct).
    apply percent_none; [now rewrite Qred_correct|].
    apply Hlow. q_solve.
  - intros Htravel Hright.
    replace (num_gt (Fin (Qred (tw - bw))) (Fin (inject_Z 0))) with true
      by (symmetry; apply num_gt_Fin; now rewrite Qred_correct).
    apply percent_full; [now rewrite Qred_correct|].
    apply Hhigh; q_solve.
Qed.

(** In double precision: track at 0.3 of width 200.3, thumb of width
    20.1, press at 190.55, half a thumb from the right end; the
    percentage is [100 - 2^-46], that is 99.99999999999999. *)
Example click_short_of_100 :
  let trackRect : DOMRect.t binary64 :=
    DOMRect.mk (b64_decimal 3 1) (lit 0) (b64_decimal 2003 1) (lit 24) in
  let thumbRect : DOMRect.t binary64 :=
    DOMRect.mk (b64_decimal 3 1) (lit 2) (b64_decimal 201 1) (lit 20) in
  let event := {| clientX := b64_decimal 19055 2; clientY := lit 12 |} in
  clickPercentage trackRect thumbRect event
  = (lit 100 - lit 1 / lit (2 ^ 46))%js.
Proof. vm_compute. reflexivity. Qed.

(** X19: a press on the track puts the thumb where a drag that holds the
    thumb by its centre would.  After a press on the thumb at half its
    width from its left edge, every move gives the [position.x] that
    [handleTrackClick] computes for a press at the same place. *)
Theorem click_is_drag_held_at_centre :
  forall (st0 : DragState number) (press move : DomEvent number)
         (thumb track : Element number)
         (tl tt tw th bl bt bw bh x0 y0 x1 y1 : Q),
    parentElement thumb = Some track ->
    getBoundingClientRect thumb
    = DOMRect.mk (Fin bl) (Fin bt) (Fin bw) (Fin bh) ->
    getBoundingClientRect track
    = DOMRect.mk (Fin tl) (Fin tt) (Fin tw) (Fin th) ->
    pointer_of press = Some {| clientX := Fin x0; clientY := Fin y0 |} ->
    pointer_of move = Some {| clientX := Fin x1; clientY := Fin y1 |} ->
    x0 - bl == bw / 2 ->
    let st := onMouseDown sliderParams st0 press (Some thumb) in
    Position.x (position (onMouseMove sliderParams st move))
    = clickPercentage (getBoundingClientRect track)
        (getBoundingClientRect thumb)
        {| clientX := Fin x1; clientY := Fin y1 |}.
Proof.
  intros st0 press move thumb track tl tt tw th bl bt bw bh x0 y0 x1 y1
    Hparent Hthumb Htrack Hpress Hmove Hcentre st.
  destruct (onMouseDown_started sliderParams st0 press thumb Hparent Hpress
              eq_refl) as (Hdrag & Hprect & Herect & Hoff).
  fold st in Hdrag, Hprect, Herect, Hoff.
  unfold onMouseMove. rewrite Hdrag, Hprect, Herect, Hmove, Hoff.
  cbn [position log set_position]. rewrite Hthumb, Htrack.
  unfold percentOf, clickPercentage;
    cbn [centered useOffset sliderParams
         DOMRect.left DOMRect.top DOMRect.width DOMRect.height
         Position.x Position.y clientX clientY].
  js_number. rewrite num_half_Fin, !num_sub_Fin.
  assert (E : Qred (Qred (x1 - tl) - Qred (Qred (x0 - bl) - inject_Z 0))
              = Qred (Qred (x1 - tl) - Qred (bw / 2))).
  { apply Qred_eq. rewrite !Qred_correct, <- Hcentre.
    unfold inject_Z. ring. }
  rewrite E. now rewrite num_min_Qred_comm.
Qed.

Lemma click_is_drag_held_at_centre_witness :
  let st := onMouseDown sliderParams (useDraggable sliderParams)
              (mouse thumbEl 10 12) (Some thumbEl) in
  Position.x (position (onMouseMove sliderParams st (mouse thumbEl 100 12)))
  = clickPercentage (getBoundingClientRect (N := number) trackEl)
      (getBoundingClientRect thumbEl)
      {| clientX := Fin 100; clientY := Fin 12 |}.
Proof.
  apply (@click_is_drag_held_at_centre (useDraggable sliderParams)
           (mouse thumbEl 10 12) (mouse thumbEl 100 12) thumbEl trackEl
           0 0 200 24 0 2 20 20 10 12 100 12); reflexivity.
Defined.

(* ----------------------------------------------------------------- *)
(** *** The page of the demo *)




